(** * invitations.py: two-day event scheduling

    A shallow embedding of [get_valid_dates], [organize_event] and
    [construct] from [snippets/python-invitations/invitations.py], together
    with the part of Python's [datetime] module those functions call
    ([strptime] and [strftime] with the format [%Y-%m-%d], comparison of
    datetimes, adding a [timedelta] of one day). *)

From Stdlib Require Import ZArith List String Ascii Bool Lia.
From Stdlib Require Import Sorting.Sorted Sorting.Permutation Sorting.Mergesort.
From Stdlib Require Import Orders.
Import ListNotations.

Open Scope string_scope.
Open Scope list_scope.
Open Scope Z_scope.

(** ** Exceptions

    The Python code signals failure by raising.  Three exceptions can leave
    the functions embedded here: [ValueError] from [strptime], [OverflowError]
    from [datetime + timedelta], and [KeyError] from a dictionary lookup. *)

(** The three ways [datetime.strptime] fails, with the data its message
    carries:
    - [time data '<data>' does not match format '%Y-%m-%d'];
    - [unconverted data remains: <rest>];
    - [day is out of range for month] / [year 0 is out of range], raised by
      the date constructor, which does not mention the input text. *)
Inductive value_error : Type :=
| NoMatch (data : string)
| UnconvertedData (rest : string)
| OutOfRange.

Inductive exn : Type :=
| ValueError (why : value_error)
| OverflowError
| KeyError.

Inductive result (A : Type) : Type :=
| Ok (a : A)
| Raise (e : exn).

Arguments Ok {A} a.
Arguments Raise {A} e.

Definition bind {A B : Type} (r : result A) (k : A -> result B) : result B :=
  match r with
  | Ok a => k a
  | Raise e => Raise e
  end.

Notation "x <- r ;; k" := (bind r (fun x => k))
  (at level 61, r at next level, right associativity).

(** [list(map(f, xs))] for an [f] that may raise: elements are converted
    left to right and the first failure leaves the whole expression. *)
Fixpoint map_raise {A B : Type} (f : A -> result B) (xs : list A)
  : result (list B) :=
  match xs with
  | [] => Ok []
  | x :: xs' => y <- f x ;; ys <- map_raise f xs' ;; Ok (y :: ys)
  end.

(** [for x in xs: state = body(x, state)] for a body that may raise. *)
Fixpoint for_each {A S : Type} (xs : list A) (body : A -> S -> result S)
  (s : S) : result S :=
  match xs with
  | [] => Ok s
  | x :: xs' => s' <- body x s ;; for_each xs' body s'
  end.

(** ** Python's datetime, as far as the program uses it *)

Module Datetime.

(** A [datetime.datetime] built by [strptime(_, '%Y-%m-%d')]: the time of
    day is always midnight, so only the calendar fields are kept. *)
Record t : Type := make { year : Z; month : Z; day : Z }.

Definition MINYEAR : Z := 1.
Definition MAXYEAR : Z := 9999.

Definition is_leap (y : Z) : bool :=
  (y mod 4 =? 0) && (negb (y mod 100 =? 0) || (y mod 400 =? 0)).

Definition days_in_month (y m : Z) : Z :=
  if m =? 2 then (if is_leap y then 29 else 28)
  else if (m =? 4) || (m =? 6) || (m =? 9) || (m =? 11) then 30
  else 31.

(** The check made by the [date(year, month, day)] constructor. *)
Definition check_date_fields (y m d : Z) : bool :=
  (MINYEAR <=? y) && (y <=? MAXYEAR) &&
  (1 <=? m) && (m <=? 12) &&
  (1 <=? d) && (d <=? days_in_month y m).

Definition valid (x : t) : bool :=
  check_date_fields (year x) (month x) (day x).

(** [==] and [<=] on datetimes compare (year, month, day) lexicographically. *)
Definition eqb (a b : t) : bool :=
  (year a =? year b) && (month a =? month b) && (day a =? day b).

Definition ltb (a b : t) : bool :=
  (year a <? year b) ||
  ((year a =? year b) &&
   ((month a <? month b) || ((month a =? month b) && (day a <? day b)))).

Definition leb (a b : t) : bool := ltb a b || eqb a b.

(** [x + datetime.timedelta(days=1)]: the next calendar day, or
    [OverflowError] ("date value out of range") past 9999-12-31. *)
Definition add_day (x : t) : result t :=
  if day x <? days_in_month (year x) (month x)
  then Ok (make (year x) (month x) (day x + 1))
  else if month x <? 12
  then Ok (make (year x) (month x + 1) 1)
  else if year x <? MAXYEAR
  then Ok (make (year x + 1) 1 1)
  else Raise OverflowError.

(** *** Parsing: [datetime.strptime(s, '%Y-%m-%d')]

    [_strptime] compiles the format to the regular expression
    [(?P<Y>\d\d\d\d)-(?P<m>1[0-2]|0[1-9]|[1-9])-(?P<d>3[0-1]|[1-2]\d|0[1-9]|[1-9]| [1-9])]
    and matches it at the start of the string.  Strings are Rocq strings
    (characters below 256), among which [\d] is exactly [0]..[9].  CPython's
    [\d] and [int()] also take the decimal digits of other scripts (the
    fullwidth digits, for one); no such character is below 256, so what
    follows is [strptime] on the strings whose characters all are. *)

Definition is_digit (c : ascii) : bool :=
  let n := Z.of_nat (nat_of_ascii c) in (48 <=? n) && (n <=? 57).

Definition digit_val (c : ascii) : Z := Z.of_nat (nat_of_ascii c) - 48.

Definition in_range (lo hi : Z) (c : ascii) : bool :=
  is_digit c && (lo <=? digit_val c) && (digit_val c <=? hi).

(** [\d\d\d\d] *)
Definition match_Y (s : string) : option (Z * string) :=
  match s with
  | String a (String b (String c (String d rest))) =>
      if is_digit a && is_digit b && is_digit c && is_digit d
      then Some (1000 * digit_val a + 100 * digit_val b
                 + 10 * digit_val c + digit_val d, rest)
      else None
  | _ => None
  end.

Definition match_hyphen (s : string) : option string :=
  match s with
  | String c rest => if Ascii.eqb c "-" then Some rest else None
  | EmptyString => None
  end.

(** A two-character alternative [[lo1-hi1][lo2-hi2]] read as a number. *)
Definition alt2 (lo1 hi1 lo2 hi2 : Z) (s : string) : list (Z * string) :=
  match s with
  | String a (String b rest) =>
      if in_range lo1 hi1 a && in_range lo2 hi2 b
      then [(10 * digit_val a + digit_val b, rest)]
      else []
  | _ => []
  end.

(** A one-character alternative [[lo-hi]]. *)
Definition alt1 (lo hi : Z) (s : string) : list (Z * string) :=
  match s with
  | String a rest => if in_range lo hi a then [(digit_val a, rest)] else []
  | EmptyString => []
  end.

(** The alternative [ [1-9]]: a space, then a digit. *)
Definition alt_space (s : string) : list (Z * string) :=
  match s with
  | String a (String b rest) =>
      if Ascii.eqb a " " && in_range 1 9 b
      then [(digit_val b, rest)]
      else []
  | _ => []
  end.

(** [1[0-2]|0[1-9]|[1-9]]: the ways the month group can match, in the order
    the regex engine tries them. *)
Definition match_m (s : string) : list (Z * string) :=
  alt2 1 1 0 2 s ++ alt2 0 0 1 9 s ++ alt1 1 9 s.

(** [3[0-1]|[1-2]\d|0[1-9]|[1-9]| [1-9]] *)
Definition match_d (s : string) : list (Z * string) :=
  alt2 3 3 0 1 s ++ alt2 1 2 0 9 s ++ alt2 0 0 1 9 s ++ alt1 1 9 s
  ++ alt_space s.

(** The first alternative whose continuation succeeds (backtracking). *)
Fixpoint first_match {A B : Type} (k : A -> option B) (alts : list A)
  : option B :=
  match alts with
  | [] => None
  | a :: alts' =>
      match k a with
      | Some b => Some b
      | None => first_match k alts'
      end
  end.

(** The day group, last in the expression: its first alternative that
    matches ends the match. *)
Definition match_day_group (y m : Z) (s : string)
  : option (Z * Z * Z * string) :=
  match match_d s with
  | [] => None
  | (d, rest) :: _ => Some (y, m, d, rest)
  end.

(** What follows a way of matching the month group: the second hyphen and
    the day group. *)
Definition after_month {B : Type} (k : Z -> string -> option B)
  (alt : Z * string) : option B :=
  match match_hyphen (snd alt) with
  | None => None
  | Some s => k (fst alt) s
  end.

(** [format_regex.match(data_string)]: the groups and the unmatched rest. *)
Definition regex_match (s : string) : option (Z * Z * Z * string) :=
  match match_Y s with
  | None => None
  | Some (y, s1) =>
      match match_hyphen s1 with
      | None => None
      | Some s2 => first_match (after_month (match_day_group y)) (match_m s2)
      end
  end.

Definition strptime (s : string) : result t :=
  match regex_match s with
  | None => Raise (ValueError (NoMatch s))
  | Some (y, m, d, rest) =>
      match rest with
      | String _ _ => Raise (ValueError (UnconvertedData rest))
      | EmptyString =>
          if check_date_fields y m d then Ok (make y m d)
          else Raise (ValueError OutOfRange)
      end
  end.

(** *** Formatting: [x.strftime('%Y-%m-%d')]

    [%m] and [%d] are zero-padded to two digits.  CPython hands [%Y] to the
    platform's C library: glibc prints the year without padding ([999]),
    other C libraries pad it to four digits ([0999]).  [zero_pad_year]
    selects between the two. *)

Definition digit_char (n : Z) : ascii := ascii_of_nat (Z.to_nat (48 + n)).

Definition pad2 (n : Z) (rest : string) : string :=
  String (digit_char (n / 10 mod 10)) (String (digit_char (n mod 10)) rest).

Definition pad4 (n : Z) (rest : string) : string :=
  String (digit_char (n / 1000 mod 10))
    (String (digit_char (n / 100 mod 10)) (pad2 n rest)).

(** Decimal digits without leading zeros, for 0 <= n <= 9999. *)
Definition unpadded (n : Z) (rest : string) : string :=
  if n <? 10 then String (digit_char (n mod 10)) rest
  else if n <? 100 then pad2 n rest
  else if n <? 1000 then String (digit_char (n / 100 mod 10)) (pad2 n rest)
  else pad4 n rest.

Definition strftime (zero_pad_year : bool) (x : t) : string :=
  (if zero_pad_year then pad4 else unpadded) (year x)
    (String "-" (pad2 (month x) (String "-" (pad2 (day x) EmptyString)))).

(** *** [list.sort()] on datetimes

    Python's sort is a stable merge sort under [<]; the standard library's
    merge sort over [leb] is stable too, and on a total order every sort
    returns the same list. *)

Lemma leb_iff (a b : t) :
  leb a b = true <->
  year a < year b \/
  (year a = year b /\
   (month a < month b \/ (month a = month b /\ day a <= day b))).
Proof.
  unfold leb, ltb, eqb.
  rewrite !orb_true_iff, !andb_true_iff, !orb_true_iff, !andb_true_iff,
    !Z.ltb_lt, !Z.eqb_eq.
  lia.
Qed.

Lemma leb_total_or (a b : t) : leb a b = true \/ leb b a = true.
Proof. rewrite !leb_iff. lia. Qed.

Module Order <: TotalLeBool.
Definition t := t.
Definition leb := leb.
Definition leb_total := leb_total_or.
End Order.

Module Sorting := Sort Order.

Definition sort (l : list t) : list t := Sorting.sort l.

(** [x in l] *)
Definition mem (x : t) (l : list t) : bool := existsb (eqb x) l.

Definition eq_dec (a b : t) : {a = b} + {a <> b}.
Proof. decide equality; apply Z.eq_dec. Defined.

(** [datetime.max], without its time of day. *)
Definition max_date : t := make MAXYEAR 12 31.

End Datetime.

(** ** The program *)

Abbreviation datetime := Datetime.t (only parsing).

(** A partner of the response body, as far as the program reads it:
    [attendee['email']] and [attendee['availableDates']]. *)
Record attendee : Type := mk_attendee {
  email : string;
  availableDates : list string
}.

(** *** Dictionaries keyed by datetimes

    A Python [dict] iterates in insertion order, and the selection loop of
    [organize_event] depends on that order, so [valid_date_mapping] is an
    association list with one entry per key, oldest key first. *)
Definition dict : Type := list (datetime * list string).

(** [key in d] *)
Definition dict_contains (d : dict) (key : datetime) : bool :=
  existsb (fun kv => Datetime.eqb key (fst kv)) d.

(** [d[key]], raising [KeyError] for a missing key. *)
Fixpoint dict_getitem (d : dict) (key : datetime) : result (list string) :=
  match d with
  | [] => Raise KeyError
  | (k, v) :: d' =>
      if Datetime.eqb key k then Ok v else dict_getitem d' key
  end.

(** [d[key].append(x)] for a key that is present: the list stored under
    the key grows in place, the key keeps its position. *)
Fixpoint dict_append (d : dict) (key : datetime) (x : string) : dict :=
  match d with
  | [] => []
  | (k, v) :: d' =>
      if Datetime.eqb key k then (k, v ++ [x]) :: d'
      else (k, v) :: dict_append d' key x
  end.

(** [d[key] = value] for a key that is absent: a new last entry. *)
Definition dict_insert (d : dict) (key : datetime) (value : list string)
  : dict :=
  d ++ [(key, value)].

(** [get_valid_dates], lines 38-48: parse every string, sort, and keep each
    date of [dates[:-1]] whose next day is in [dates]. *)
Definition get_valid_dates (available_dates : list string)
  : result (list datetime) :=
  dates <- map_raise Datetime.strptime available_dates ;;
  let dates := Datetime.sort dates in
  for_each (removelast dates)
    (fun date valid_dates =>
       next_date <- Datetime.add_day date ;;
       if Datetime.mem next_date dates
       then Ok (valid_dates ++ [date])
       else Ok valid_dates)
    [].

(** Lines 68-72 of [organize_event]: record one attendee under a date. *)
Definition record_date (who : string) (valid_date_mapping : dict)
  (date : datetime) : dict :=
  if dict_contains valid_date_mapping date
  then dict_append valid_date_mapping date who
  else dict_insert valid_date_mapping date [who].

(** Lines 65-72 of [organize_event]: the mapping from valid dates to the
    attendees that have them. *)
Definition aggregate (attendees : list attendee) : result dict :=
  for_each attendees
    (fun a valid_date_mapping =>
       valid_dates <- get_valid_dates (availableDates a) ;;
       Ok (fold_left (record_date (email a)) valid_dates valid_date_mapping))
    [].

(** Lines 75-81 of [organize_event]: one pass over the keys in iteration
    order, keeping [highest] and [ret]; [ret] is [None] until some entry
    has more than zero attendees. *)
Definition scan_step (state : nat * option datetime)
  (entry : datetime * list string) : nat * option datetime :=
  let '(highest, ret) := state in
  let count := List.length (snd entry) in
  if (highest <? count)%nat then (count, Some (fst entry)) else (highest, ret).

Definition scan (valid_date_mapping : dict) : nat * option datetime :=
  fold_left scan_step valid_date_mapping (0%nat, None).

(** Lines 75-82 of [organize_event]: the selection, and the final
    [valid_date_mapping[ret]], where [ret] may still be [None]; no key is
    [None], so that lookup raises [KeyError]. *)
Definition select (valid_date_mapping : dict)
  : result (datetime * list string) :=
  match snd (scan valid_date_mapping) with
  | None => Raise KeyError
  | Some ret =>
      who <- dict_getitem valid_date_mapping ret ;;
      Ok (ret, who)
  end.

Definition organize_event (attendees : list attendee)
  : result (datetime * list string) :=
  valid_date_mapping <- aggregate attendees ;;
  select valid_date_mapping.

(** The dictionary built by [construct]. *)
Record country_record : Type := mk_country_record {
  attendeeCount : nat;
  attendees : list string;
  name : string;
  startDate : string
}.

Section Construct.

(** How the platform's [strftime] prints [%Y] (see [Datetime.strftime]). *)
Variable zero_pad_year : bool.

Definition construct (event : datetime * list string) (country : string)
  : country_record :=
  {| attendeeCount := List.length (snd event);
     attendees := snd event;
     name := country;
     startDate := Datetime.strftime zero_pad_year (fst event) |}.

End Construct.

(** *** Grouping by country and the driver

    A partner of the response body is one dictionary: [map_invitees] reads
    its ['country'], [organize_event] its ['email'] and ['availableDates'].
    [invitee] is that same dictionary as [organize_event] reads it. *)
Record partner : Type := mk_partner {
  country : string;
  invitee : attendee
}.

(** The response body, as far as [map_invitees] reads it:
    [res['partners']]. *)
Record response : Type := mk_response {
  partners : list partner
}.

(** [country_mapping]: a dictionary from country names to lists of
    partners, in insertion order like [dict]. *)
Definition country_dict : Type := list (string * list partner).

(** [key in d] *)
Definition country_contains (d : country_dict) (key : string) : bool :=
  existsb (fun kv => String.eqb key (fst kv)) d.

(** [d[key]], raising [KeyError] for a missing key. *)
Fixpoint country_getitem (d : country_dict) (key : string)
  : result (list partner) :=
  match d with
  | [] => Raise KeyError
  | (k, v) :: d' =>
      if String.eqb key k then Ok v else country_getitem d' key
  end.

(** [d[key].append(x)] for a key that is present. *)
Fixpoint country_append (d : country_dict) (key : string) (x : partner)
  : country_dict :=
  match d with
  | [] => []
  | (k, v) :: d' =>
      if String.eqb key k then (k, v ++ [x]) :: d'
      else (k, v) :: country_append d' key x
  end.

(** [d[key] = value] for a key that is absent. *)
Definition country_insert (d : country_dict) (key : string)
  (value : list partner) : country_dict :=
  d ++ [(key, value)].

(** Lines 18-22 of [map_invitees]: file one partner under its country. *)
Definition map_invitee (country_mapping : country_dict) (p : partner)
  : country_dict :=
  let partner_country := country p in
  if country_contains country_mapping partner_country
  then country_append country_mapping partner_country p
  else country_insert country_mapping partner_country [p].

(** [map_invitees], lines 16-24. *)
Definition map_invitees (res : response) : country_dict :=
  fold_left map_invitee (partners res) [].

Section Driver.

(** How the platform's [strftime] prints [%Y] (see [Datetime.strftime]). *)
Variable zero_pad_year : bool.

(** Lines 121-127 of the [__main__] block, between the request and the
    post: the list [countries], one record per key of [country_mapping] in
    iteration order.  Nothing catches an exception of [organize_event]. *)
Definition countries_of (body : response) : result (list country_record) :=
  let country_mapping := map_invitees body in
  for_each (map fst country_mapping)
    (fun country countries =>
       group <- country_getitem country_mapping country ;;
       event <- organize_event (map invitee group) ;;
       Ok (countries ++ [construct zero_pad_year event country]))
    [].

End Driver.

(** *** Notions used in the statements *)

(** [date + timedelta(days=1)] is computed. *)
Definition can_add (d : datetime) : bool :=
  match Datetime.add_day d with Ok _ => true | Raise _ => false end.

(** [date + timedelta(days=1) in dates] *)
Definition has_next (dates : list datetime) (d : datetime) : bool :=
  match Datetime.add_day d with
  | Ok n => Datetime.mem n dates
  | Raise _ => false
  end.

(** [a <= b] on datetimes. *)
Definition le (a b : datetime) : Prop := Datetime.leb a b = true.

(** [k in m] for a dictionary, as a proposition. *)
Definition has_key (m : dict) (k : datetime) : Prop :=
  exists v, In (k, v) m.

(** The partners filed under a country ([[]] when it is not a key). *)
Definition group_of (m : country_dict) (c : string) : list partner :=
  match country_getitem m c with
  | Ok v => v
  | Raise _ => []
  end.

(** [partner['country'] == c] *)
Definition from_country (c : string) (p : partner) : bool :=
  String.eqb (country p) c.

(** One iteration of the driver's loop without the [append]: the record
    of one country. *)
Definition country_record_of (zero_pad_year : bool)
  (country_mapping : country_dict) (c : string) : result country_record :=
  group <- country_getitem country_mapping c ;;
  event <- organize_event (map invitee group) ;;
  Ok (construct zero_pad_year event c).

(** A response body used in the examples. *)
Definition sample_body : response :=
  mk_response
    [mk_partner "Ireland" (mk_attendee "a" ["2024-06-01"; "2024-06-02"]);
     mk_partner "Spain" (mk_attendee "b" ["2024-06-02"; "2024-06-03"]);
     mk_partner "Ireland"
       (mk_attendee "c" ["2024-06-01"; "2024-06-02"; "2024-06-03"])].

(** [m[k]], or [[]] when [k] is not a key. *)
Definition emails_in (m : dict) (k : datetime) : list string :=
  match dict_getitem m k with
  | Ok v => v
  | Raise _ => []
  end.

(** [a < b] on datetimes. *)
Definition lt (a b : datetime) : Prop := Datetime.ltb a b = true.

(** [len(m[k])], or 0 when [k] is not a key. *)
Definition count_in (m : dict) (k : datetime) : nat :=
  match dict_getitem m k with
  | Ok v => List.length v
  | Raise _ => 0%nat
  end.

(** The window starts of one attendee (none when extraction raises). *)
Definition windows_of (a : attendee) : list datetime :=
  match get_valid_dates (availableDates a) with
  | Ok r => r
  | Raise _ => []
  end.

(** How often the attendees of a group offer [k] as a window start. *)
Definition support (attendees : list attendee) (k : datetime) : nat :=
  list_sum
    (map (fun a => count_occ Datetime.eq_dec (windows_of a) k) attendees).

(** The textual form [YYYY-MM-DD]: four digits, a hyphen, two digits, a
    hyphen, two digits, and nothing else. *)
Definition iso_form (s : string) : bool :=
  match s with
  | String y1 (String y2 (String y3 (String y4 (String h1
      (String m1 (String m2 (String h2 (String d1 (String d2
        EmptyString))))))))) =>
      Datetime.is_digit y1 && Datetime.is_digit y2 &&
      Datetime.is_digit y3 && Datetime.is_digit y4 &&
      Ascii.eqb h1 "-" &&
      Datetime.is_digit m1 && Datetime.is_digit m2 &&
      Ascii.eqb h2 "-" &&
      Datetime.is_digit d1 && Datetime.is_digit d2
  | _ => false
  end.

(** An exception identifies an input string when its message quotes that
    string; of the messages above only [time data '<data>' does not match
    format] does. *)
Definition identifies (e : exn) (s : string) : Prop :=
  e = ValueError (NoMatch s).

(** The text of the input that the message of a [ValueError] of [strptime]
    quotes: the whole data string, the part left unconverted, or nothing. *)
Definition quoted (why : value_error) : option string :=
  match why with
  | NoMatch data => Some data
  | UnconvertedData rest => Some rest
  | OutOfRange => None
  end.

(** An attendee that lists 2024-05-01 three times, and 2024-05-02. *)
Definition thrice (who : string) : attendee :=
  mk_attendee who ["2024-05-01"; "2024-05-01"; "2024-05-01"; "2024-05-02"].

(** Dates and attendees used in the examples. *)
Definition may_01 : datetime := Datetime.make 2024 5 1.
Definition may_03 : datetime := Datetime.make 2024 5 3.

Definition early (who : string) : attendee :=
  mk_attendee who ["2024-05-01"; "2024-05-02"].
Definition late (who : string) : attendee :=
  mk_attendee who ["2024-05-03"; "2024-05-04"].

(** ** Facts about the datetime model *)

Module DatetimeFacts.
Import Datetime.

Lemma ltb_iff (a b : t) :
  ltb a b = true <->
  year a < year b \/
  (year a = year b /\
   (month a < month b \/ (month a = month b /\ day a < day b))).
Proof.
  unfold ltb.
  rewrite !orb_true_iff, !andb_true_iff, !orb_true_iff, !andb_true_iff,
    !Z.ltb_lt, !Z.eqb_eq.
  lia.
Qed.

Lemma eqb_eq (a b : t) : eqb a b = true <-> a = b.
Proof.
  unfold eqb. rewrite !andb_true_iff, !Z.eqb_eq.
  destruct a as [y1 m1 d1], b as [y2 m2 d2]; simpl. split.
  - intros [[-> ->] ->]. reflexivity.
  - intros H. injection H as -> -> ->. auto.
Qed.

Lemma eqb_refl (a : t) : eqb a a = true.
Proof. now apply eqb_eq. Qed.

Lemma eqb_neq (a b : t) : eqb a b = false <-> a <> b.
Proof.
  split.
  - intros H E. apply eqb_eq in E. congruence.
  - intros H. destruct (eqb a b) eqn:E;
      [apply eqb_eq in E; contradiction | reflexivity].
Qed.

Lemma leb_trans (a b c : t) :
  leb a b = true -> leb b c = true -> leb a c = true.
Proof. rewrite !leb_iff. lia. Qed.

Lemma leb_antisym (a b : t) : leb a b = true -> leb b a = true -> a = b.
Proof.
  rewrite !leb_iff. intros H1 H2. apply eqb_eq.
  unfold eqb. rewrite !andb_true_iff, !Z.eqb_eq. lia.
Qed.

Lemma ltb_not_leb (a b : t) : ltb a b = true -> leb b a = false.
Proof.
  rewrite ltb_iff. intros H.
  destruct (leb b a) eqn:E; [|reflexivity].
  apply leb_iff in E. lia.
Qed.

(** The day after is strictly later. *)
Lemma add_day_ltb (x y : t) : add_day x = Ok y -> ltb x y = true.
Proof.
  unfold add_day. rewrite ltb_iff.
  destruct (Z.ltb_spec (day x) (days_in_month (year x) (month x)));
    [|destruct (Z.ltb_spec (month x) 12);
      [|destruct (Z.ltb_spec (year x) MAXYEAR); [|discriminate]]];
    intros E; injection E as <-; simpl; lia.
Qed.

Lemma add_day_neq (x y : t) : add_day x = Ok y -> x <> y.
Proof.
  intros H E. apply add_day_ltb in H. subst y.
  apply ltb_iff in H. lia.
Qed.

(** Adding a day raises only [OverflowError]. *)
Lemma add_day_raises (x : t) (e : exn) :
  add_day x = Raise e -> e = OverflowError.
Proof.
  unfold add_day.
  destruct (day x <? _); [discriminate|].
  destruct (month x <? 12); [discriminate|].
  destruct (year x <? MAXYEAR); [discriminate|].
  congruence.
Qed.

Lemma days_in_month_le (y m : Z) : 28 <= days_in_month y m <= 31.
Proof.
  unfold days_in_month.
  destruct (m =? 2); [destruct (is_leap y); lia|].
  destruct ((m =? 4) || (m =? 6) || (m =? 9) || (m =? 11)); lia.
Qed.

Lemma valid_iff (x : t) :
  valid x = true <->
  1 <= year x <= 9999 /\ 1 <= month x <= 12 /\
  1 <= day x <= days_in_month (year x) (month x).
Proof.
  unfold valid, check_date_fields, MINYEAR, MAXYEAR.
  rewrite !andb_true_iff, !Z.leb_le. lia.
Qed.

(** On dates that pass the constructor's check, adding a day fails for
    9999-12-31 alone, and that date is the latest of all. *)
Lemma add_day_overflow (x : t) (e : exn) :
  valid x = true -> add_day x = Raise e -> x = max_date.
Proof.
  rewrite valid_iff. unfold add_day, MAXYEAR. intros V.
  destruct (Z.ltb_spec (day x) (days_in_month (year x) (month x)));
    [discriminate|].
  destruct (Z.ltb_spec (month x) 12); [discriminate|].
  destruct (Z.ltb_spec (year x) 9999); [discriminate|].
  intros _. destruct x as [yy mm dd]; simpl in *.
  assert (mm = 12) by lia. assert (yy = 9999) by lia. subst.
  assert (dd = days_in_month 9999 12) by lia. subst. reflexivity.
Qed.

Lemma valid_leb_max (x : t) : valid x = true -> leb x max_date = true.
Proof.
  rewrite valid_iff, leb_iff. intros V.
  pose proof (days_in_month_le (year x) (month x)).
  unfold max_date, MAXYEAR. simpl. lia.
Qed.

Lemma strptime_valid (s : string) (x : t) :
  strptime s = Ok x -> valid x = true.
Proof.
  unfold strptime.
  destruct (regex_match s) as [[[[y m] d] rest]|]; [|discriminate].
  destruct rest; [|discriminate].
  destruct (check_date_fields y m d) eqn:V; [|discriminate].
  intros H; injection H as <-. exact V.
Qed.

(** [strptime] raises [ValueError] only. *)
Lemma strptime_raises (s : string) (e : exn) :
  strptime s = Raise e -> exists why, e = ValueError why.
Proof.
  unfold strptime.
  destruct (regex_match s) as [[[[y m] d] rest]|].
  - destruct rest.
    + destruct (check_date_fields y m d); [discriminate|].
      intros H; injection H as <-. eauto.
    + intros H; injection H as <-. eauto.
  - intros H; injection H as <-. eauto.
Qed.

Lemma mem_In (x : t) (l : list t) : mem x l = true <-> In x l.
Proof.
  unfold mem. rewrite existsb_exists. split.
  - intros (y & Hy & E). apply eqb_eq in E. now subst.
  - intros H. exists x. split; [assumption | apply eqb_refl].
Qed.

Lemma sort_perm (l : list t) : Permutation l (sort l).
Proof. apply Sorting.Permuted_sort. Qed.

Lemma sort_In (x : t) (l : list t) : In x (sort l) <-> In x l.
Proof.
  split; apply Permutation_in;
    [apply Permutation_sym|]; apply sort_perm.
Qed.

Lemma sort_sorted (l : list t) :
  StronglySorted (fun a b => leb a b = true) (sort l).
Proof.
  pose proof (Sorting.StronglySorted_sort l) as H.
  unfold sort. unfold is_true in H. apply H.
  intros a b c. apply leb_trans.
Qed.

End DatetimeFacts.

(** ** Loops that may raise *)

Section Loops.

Context {A B : Type} (f : A -> result B).

Lemma map_raise_Forall2 (xs : list A) (ys : list B) :
  map_raise f xs = Ok ys -> Forall2 (fun x y => f x = Ok y) xs ys.
Proof.
  revert ys. induction xs as [|x xs IH]; simpl; intros ys H.
  - injection H as <-. constructor.
  - destruct (f x) as [y|e] eqn:Fx; simpl in H; [|discriminate].
    destruct (map_raise f xs) as [ys'|e]; simpl in H; [|discriminate].
    injection H as <-. constructor; auto.
Qed.

(** When the conversion raises, it raises the error of the first element
    that fails; everything before it converted. *)
Lemma map_raise_first (xs : list A) (e : exn) :
  map_raise f xs = Raise e ->
  exists pre bad post,
    xs = pre ++ bad :: post /\
    Forall (fun x => exists y, f x = Ok y) pre /\
    f bad = Raise e.
Proof.
  induction xs as [|x xs IH]; simpl; intros H; [discriminate|].
  destruct (f x) as [y|e'] eqn:Fx; simpl in H.
  - destruct (map_raise f xs) as [ys'|e'']; simpl in H; [discriminate|].
    injection H as ->. destruct (IH eq_refl) as (pre & bad & post & -> & P & Fb).
    exists (x :: pre), bad, post. repeat split; eauto.
  - injection H as ->. exists [], x, xs. repeat split; auto.
Qed.

Lemma map_raise_fails (xs : list A) (x : A) :
  In x xs -> (forall y, f x <> Ok y) -> exists e, map_raise f xs = Raise e.
Proof.
  induction xs as [|a xs IH]; simpl; [contradiction|].
  intros [->|Hin] Hx.
  - destruct (f x) as [y|e]; [now destruct (Hx y)|]. simpl. eauto.
  - destruct (f a) as [y|e]; simpl; [|eauto].
    destruct (IH Hin Hx) as [e ->]. simpl. eauto.
Qed.

End Loops.

(** ** The scan of [get_valid_dates] *)

Module Import Extractor.
Import Datetime DatetimeFacts.

Lemma has_next_iff (dates : list datetime) (d : datetime) :
  has_next dates d = true <-> exists n, add_day d = Ok n /\ In n dates.
Proof.
  unfold has_next. destruct (add_day d) as [n|e].
  - rewrite mem_In. split; [eauto|]. intros (n' & E & H). congruence.
  - split; [discriminate|]. intros (n' & E & _). discriminate.
Qed.

Lemma has_next_ext (l l' : list datetime) (d : datetime) :
  (forall x, In x l <-> In x l') -> has_next l d = has_next l' d.
Proof.
  intros H. destruct (has_next l d) eqn:E; symmetry.
  - apply has_next_iff in E. apply has_next_iff.
    destruct E as (n & E & Hin). exists n. split; [|apply H]; assumption.
  - destruct (has_next l' d) eqn:E'; [|reflexivity].
    apply has_next_iff in E'. destruct E' as (n & E' & Hin).
    assert (has_next l d = true) by (apply has_next_iff; exists n; split;
      [|apply H]; assumption).
    congruence.
Qed.

(** The loop of lines 43-47 is a filter, unless an addition overflows. *)
Lemma scan_loop (dates xs acc : list datetime) :
  for_each xs
    (fun date valid_dates =>
       next_date <- add_day date ;;
       if mem next_date dates
       then Ok (valid_dates ++ [date])
       else Ok valid_dates)
    acc
  = if forallb can_add xs
    then Ok (acc ++ filter (has_next dates) xs)
    else Raise OverflowError.
Proof.
  revert acc. induction xs as [|x xs IH]; intros acc; simpl.
  - now rewrite app_nil_r.
  - destruct (add_day x) as [n|e] eqn:E; simpl.
    + assert (C : can_add x = true) by (unfold can_add; now rewrite E).
      assert (N : has_next dates x = mem n dates)
        by (unfold has_next; now rewrite E).
      rewrite C, N. simpl.
      destruct (mem n dates); simpl; rewrite IH;
        destruct (forallb can_add xs); try reflexivity.
      now rewrite <- app_assoc.
    + assert (C : can_add x = false) by (unfold can_add; now rewrite E).
      rewrite C. simpl. now rewrite (add_day_raises _ _ E).
Qed.

Lemma get_valid_dates_eq (l : list string) (dates : list datetime) :
  map_raise strptime l = Ok dates ->
  get_valid_dates l =
    if forallb can_add (removelast (sort dates))
    then Ok (filter (has_next (sort dates)) (removelast (sort dates)))
    else Raise OverflowError.
Proof.
  intros H. unfold get_valid_dates. rewrite H. simpl.
  apply scan_loop.
Qed.

Lemma get_valid_dates_parse_error (l : list string) (e : exn) :
  map_raise strptime l = Raise e -> get_valid_dates l = Raise e.
Proof. intros H. unfold get_valid_dates. now rewrite H. Qed.

Lemma get_valid_dates_inv (l : list string) (r : list datetime) :
  get_valid_dates l = Ok r ->
  exists dates,
    map_raise strptime l = Ok dates /\
    forallb can_add (removelast (sort dates)) = true /\
    r = filter (has_next (sort dates)) (removelast (sort dates)).
Proof.
  intros H. destruct (map_raise strptime l) as [dates|e] eqn:P.
  - rewrite (get_valid_dates_eq _ _ P) in H. exists dates.
    destruct (forallb can_add (removelast (sort dates)));
      [|discriminate].
    injection H as <-. auto.
  - rewrite (get_valid_dates_parse_error _ _ P) in H. discriminate.
Qed.

Lemma sorted_last (xs : list datetime) (m : datetime) :
  StronglySorted le (xs ++ [m]) -> Forall (fun x => le x m) xs.
Proof.
  induction xs as [|x xs IH]; simpl; intros H; [constructor|].
  apply StronglySorted_inv in H. destruct H as [H1 H2].
  constructor; [|auto].
  rewrite Forall_forall in H2. apply H2, in_or_app. right. now left.
Qed.

(** In a sorted list the last date has no next day in the list: dropping
    it with [dates[:-1]] loses no window start. *)
Lemma last_has_no_next (xs : list datetime) (m : datetime) :
  StronglySorted le (xs ++ [m]) -> has_next (xs ++ [m]) m = false.
Proof.
  intros S. destruct (has_next (xs ++ [m]) m) eqn:E; [|reflexivity].
  apply has_next_iff in E. destruct E as (n & E & Hin).
  apply add_day_ltb, ltb_not_leb in E.
  apply in_app_or in Hin. destruct Hin as [Hin|[<-|[]]].
  - apply sorted_last in S. rewrite Forall_forall in S.
    apply S in Hin. unfold le in Hin. congruence.
  - assert (leb m m = true) by (apply leb_iff; lia). congruence.
Qed.

Lemma removelast_snoc (l : list t) :
  l <> [] -> exists m, l = removelast l ++ [m].
Proof.
  intros H. exists (last l max_date). now apply app_removelast_last.
Qed.

Lemma filter_removelast (l : list datetime) :
  StronglySorted le l ->
  filter (has_next l) (removelast l) = filter (has_next l) l.
Proof.
  intros S. destruct l as [|a l']; [reflexivity|].
  destruct (removelast_snoc (a :: l')) as [m E]; [discriminate|].
  revert E. generalize (removelast (a :: l')). intros xs E.
  rewrite E in S |- *. rewrite filter_app. simpl.
  rewrite (last_has_no_next _ _ S). now rewrite app_nil_r.
Qed.

End Extractor.

Module Import ExtractorFacts.
Import Datetime DatetimeFacts.

Lemma parsed_valid (l : list string) (dates : list datetime) :
  map_raise strptime l = Ok dates -> Forall (fun d => valid d = true) dates.
Proof.
  intros H. apply map_raise_Forall2 in H.
  induction H as [|s d l dates Hs _ IH]; constructor; auto.
  now apply strptime_valid in Hs.
Qed.

Lemma parsed_In (l : list string) (dates : list datetime) (d : datetime) :
  map_raise strptime l = Ok dates ->
  In d dates -> exists s, In s l /\ strptime s = Ok d.
Proof.
  intros H. apply map_raise_Forall2 in H.
  induction H as [|s x l dates Hs _ IH]; simpl; [contradiction|].
  intros [<-|Hin].
  - exists s. auto.
  - destruct (IH Hin) as (s' & Hs' & E). exists s'. auto.
Qed.

Lemma count_occ_filter (p : datetime -> bool) (l : list datetime)
  (d : datetime) :
  count_occ eq_dec (filter p l) d
  = if p d then count_occ eq_dec l d else 0%nat.
Proof.
  induction l as [|x l IH]; simpl.
  - now destruct (p d).
  - destruct (eq_dec x d) as [->|N].
    + destruct (p d) eqn:P; simpl; [|exact IH].
      destruct (eq_dec d d); [|contradiction]. now rewrite IH.
    + destruct (p x); simpl; [|exact IH].
      destruct (eq_dec x d); [contradiction|exact IH].
Qed.

(** What [get_valid_dates] returns, when it returns: the sorted input
    filtered by "the next day is in the input". *)
Lemma get_valid_dates_filter (l : list string) (dates r : list datetime) :
  map_raise strptime l = Ok dates ->
  get_valid_dates l = Ok r ->
  r = filter (has_next dates) (sort dates).
Proof.
  intros P H. destruct (get_valid_dates_inv _ _ H) as (dates' & P' & _ & ->).
  rewrite P in P'. injection P' as <-.
  rewrite filter_removelast by apply sort_sorted.
  apply filter_ext. intros d. apply has_next_ext.
  intros x. apply sort_In.
Qed.

(** The scan overflows only on a date that is the last day of year 9999
    and is not last in the sorted list, that is, on a repeated
    9999-12-31. *)
Lemma scan_does_not_overflow (l : list string) (dates : list datetime) :
  map_raise strptime l = Ok dates ->
  (count_occ eq_dec dates max_date <= 1)%nat ->
  forallb can_add (removelast (sort dates)) = true.
Proof.
  intros P C. apply forallb_forall. intros x Hx.
  unfold can_add. destruct (add_day x) as [n|e] eqn:E; [reflexivity|].
  exfalso.
  pose proof (parsed_valid _ _ P) as V. rewrite Forall_forall in V.
  destruct (sort dates) as [|a l'] eqn:S; [contradiction|].
  destruct (removelast_snoc (a :: l')) as [m Em]; [discriminate|].
  revert Em Hx. generalize (removelast (a :: l')). intros xs Em Hx.
  assert (Vs : forall y, In y (a :: l') -> valid y = true).
  { intros y Hy. apply V. apply sort_In. now rewrite S. }
  assert (Hxs : In x (a :: l')).
  { rewrite Em. apply in_or_app. now left. }
  assert (Hms : In m (a :: l')).
  { rewrite Em. apply in_or_app. right. now left. }
  pose proof (add_day_overflow _ _ (Vs _ Hxs) E) as ->.
  pose proof (sort_sorted dates) as Sd. rewrite S, Em in Sd.
  apply sorted_last in Sd. rewrite Forall_forall in Sd.
  assert (m = max_date) as ->.
  { apply leb_antisym; [apply valid_leb_max; auto | now apply Sd]. }
  assert (K : count_occ eq_dec (a :: l') max_date
              = count_occ eq_dec dates max_date).
  { rewrite <- S. symmetry.
    apply (proj1 (Permutation_count_occ eq_dec _ _) (sort_perm dates)). }
  rewrite Em, count_occ_app in K. simpl in K.
  destruct (eq_dec max_date max_date); [|contradiction].
  apply (count_occ_In eq_dec) in Hx. lia.
Qed.

Lemma NoDup_count_le (l : list datetime) (d : datetime) :
  NoDup l -> (count_occ eq_dec l d <= 1)%nat.
Proof. intros H. now apply (NoDup_count_occ eq_dec). Qed.

Lemma get_valid_dates_returns (l : list string) (dates : list datetime) :
  map_raise strptime l = Ok dates ->
  (count_occ eq_dec dates max_date <= 1)%nat ->
  exists r, get_valid_dates l = Ok r.
Proof.
  intros P C. rewrite (get_valid_dates_eq _ _ P).
  rewrite (scan_does_not_overflow _ _ P C). eauto.
Qed.

Lemma get_valid_dates_In (l : list string) (dates r : list datetime)
  (d : datetime) :
  map_raise strptime l = Ok dates ->
  get_valid_dates l = Ok r ->
  In d r <-> In d dates /\ exists n, add_day d = Ok n /\ In n dates.
Proof.
  intros P H. rewrite (get_valid_dates_filter _ _ _ P H).
  rewrite filter_In, sort_In, has_next_iff. reflexivity.
Qed.

Lemma StronglySorted_filter (p : datetime -> bool) (l : list datetime) :
  StronglySorted le l -> StronglySorted le (filter p l).
Proof.
  induction 1 as [|a l S IH F]; simpl; [constructor|].
  destruct (p a); [|assumption].
  constructor; [assumption|].
  rewrite Forall_forall in *. intros x Hx. apply filter_In in Hx.
  now apply F.
Qed.

End ExtractorFacts.

(** ** The aggregation and the selection of [organize_event] *)

Section ForEach.

Context {A S : Type} (body : A -> S -> result S).

Lemma for_each_app (xs ys : list A) (s : S) :
  for_each (xs ++ ys) body s = s' <- for_each xs body s ;; for_each ys body s'.
Proof.
  revert s. induction xs as [|x xs IH]; intros s; simpl; [reflexivity|].
  destruct (body x s); simpl; auto.
Qed.

(** A property of the state that every successful iteration keeps holds
    when the loop ends. *)
Lemma for_each_preserves (P : S -> Prop) (xs : list A) (s0 s : S) :
  (forall x s s', In x xs -> P s -> body x s = Ok s' -> P s') ->
  P s0 -> for_each xs body s0 = Ok s -> P s.
Proof.
  revert s0. induction xs as [|x xs IH]; simpl; intros s0 Step P0 H.
  - now injection H as <-.
  - destruct (body x s0) as [s1|e] eqn:B; simpl in H; [|discriminate].
    apply (IH s1); eauto.
Qed.

(** A loop whose iterations all succeed ends normally. *)
Lemma for_each_total (xs : list A) (s0 : S) :
  Forall (fun x => forall s, exists s', body x s = Ok s') xs ->
  exists s, for_each xs body s0 = Ok s.
Proof.
  intros F. revert s0. induction F as [|x xs Hx _ IH]; intros s0; simpl.
  - eauto.
  - destruct (Hx s0) as [s1 ->]. simpl. apply IH.
Qed.

End ForEach.

Module Import AggregateFacts.
Import Datetime DatetimeFacts.

Lemma dict_append_keys (m : dict) (key : datetime) (x : string)
  (k : datetime) :
  has_key (dict_append m key x) k -> has_key m k.
Proof.
  induction m as [|[k' v'] m IH]; simpl; [auto|].
  destruct (eqb key k').
  - intros [v [H|H]].
    + injection H as -> _. exists v'. now left.
    + exists v. now right.
  - intros [v [H|H]].
    + injection H as -> ->. exists v. now left.
    + destruct IH as [w Hw]; [now exists v|]. exists w. now right.
Qed.

Lemma record_date_keys (who : string) (m : dict) (d k : datetime) :
  has_key (record_date who m d) k -> k = d \/ has_key m k.
Proof.
  unfold record_date. destruct (dict_contains m d).
  - intros H. right. now apply dict_append_keys in H.
  - unfold dict_insert. intros [v H]. apply in_app_or in H.
    destruct H as [H|[H|[]]].
    + right. now exists v.
    + injection H as -> _. now left.
Qed.

Lemma record_dates_keys (who : string) (ds : list datetime) (m : dict)
  (k : datetime) :
  has_key (fold_left (record_date who) ds m) k -> In k ds \/ has_key m k.
Proof.
  revert m. induction ds as [|d ds IH]; simpl; intros m H; [auto|].
  apply IH in H. destruct H as [H|H]; [auto|].
  apply record_date_keys in H. destruct H as [->|H]; auto.
Qed.

(** Every key of the aggregation is a window start of some attendee. *)
Lemma aggregate_keys (attendees : list attendee) (m : dict) (k : datetime) :
  aggregate attendees = Ok m ->
  has_key m k ->
  exists a r, In a attendees /\
    get_valid_dates (availableDates a) = Ok r /\ In k r.
Proof.
  unfold aggregate. intros H.
  revert k. pattern m.
  eapply for_each_preserves; [| |exact H].
  - intros a s s' Ha IHs B k Hk. simpl in B.
    destruct (get_valid_dates (availableDates a)) as [r|e] eqn:G;
      simpl in B; [|discriminate].
    injection B as <-. apply record_dates_keys in Hk.
    destruct Hk as [Hk|Hk]; eauto.
  - intros k [v []].
Qed.

Lemma scan_from_keys (m : dict) (st : nat * option datetime) (d : datetime) :
  snd (fold_left scan_step m st) = Some d ->
  snd st = Some d \/ has_key m d.
Proof.
  revert st. induction m as [|[k v] m IH]; simpl; intros st H; [auto|].
  apply IH in H. destruct H as [H|[w H]].
  - unfold scan_step in H. destruct st as [highest ret]. simpl in H.
    destruct (highest <? List.length v)%nat; simpl in H.
    + injection H as ->. right. exists v. now left.
    + now left.
  - right. exists w. now right.
Qed.

Lemma select_key (m : dict) (d : datetime) (who : list string) :
  select m = Ok (d, who) -> has_key m d.
Proof.
  unfold select. destruct (snd (scan m)) as [ret|] eqn:R; [|discriminate].
  destruct (dict_getitem m ret) as [v|e]; simpl; [|discriminate].
  intros H. injection H as -> _.
  apply scan_from_keys in R. destruct R as [R|R]; [discriminate|exact R].
Qed.

Lemma scan_stable (m : dict) (highest : nat) (ret : option datetime) :
  (forall e, In e m -> (List.length (snd e) <= highest)%nat) ->
  fold_left scan_step m (highest, ret) = (highest, ret).
Proof.
  induction m as [|e m IH]; simpl; intros H; [reflexivity|].
  destruct (Nat.ltb_spec highest (List.length (snd e))) as [L|L].
  - specialize (H e (or_introl eq_refl)). lia.
  - apply IH. auto.
Qed.

Lemma scan_below (m : dict) (bound highest : nat) (ret : option datetime) :
  (highest < bound)%nat ->
  (forall e, In e m -> (List.length (snd e) < bound)%nat) ->
  (fst (fold_left scan_step m (highest, ret)) < bound)%nat.
Proof.
  revert highest ret. induction m as [|e m IH]; simpl; intros h r Hh H;
    [exact Hh|].
  destruct (h <? List.length (snd e))%nat; apply IH; auto.
Qed.

Lemma dict_getitem_first (before after : dict) (k : datetime)
  (v : list string) :
  ~ has_key before k ->
  dict_getitem (before ++ (k, v) :: after) k = Ok v.
Proof.
  induction before as [|[k' v'] before IH]; simpl; intros N.
  - now rewrite eqb_refl.
  - destruct (eqb k k') eqn:E.
    + apply eqb_eq in E. subst k'. destruct N. exists v'. now left.
    + apply IH. intros [w Hw]. apply N. exists w. now right.
Qed.

(** What the selection does: it returns the first entry, in iteration
    order, whose attendee count is the maximum. *)
Lemma select_first_maximum (before after : dict) (k : datetime)
  (v : list string) :
  v <> [] ->
  ~ has_key before k ->
  (forall e, In e before -> (List.length (snd e) < List.length v)%nat) ->
  (forall e, In e after -> (List.length (snd e) <= List.length v)%nat) ->
  select (before ++ (k, v) :: after) = Ok (k, v).
Proof.
  intros Hv Hk Hb Ha.
  assert (S : scan (before ++ (k, v) :: after) = (List.length v, Some k)).
  { unfold scan. rewrite fold_left_app. simpl.
    destruct (fold_left scan_step before (0%nat, None)) as [h r] eqn:F.
    assert (L : (h < List.length v)%nat).
    { change h with (fst (h, r)). rewrite <- F. apply scan_below; [|exact Hb].
      destruct v; [contradiction|simpl; lia]. }
    unfold scan_step at 2. simpl.
    destruct (Nat.ltb_spec h (List.length v)); [|lia].
    now apply scan_stable. }
  unfold select. rewrite S. simpl.
  now rewrite dict_getitem_first.
Qed.

(** With nothing recorded there is nothing to select: [ret] stays [None]
    and line 82 looks it up. *)
Lemma select_empty : select [] = Raise KeyError.
Proof. reflexivity. Qed.

(** An exception of [get_valid_dates] leaves [organize_event] as it is,
    once the attendees before it have been processed. *)
Lemma aggregate_propagates (before after : list attendee) (a : attendee)
  (e : exn) :
  Forall (fun b => exists r, get_valid_dates (availableDates b) = Ok r)
    before ->
  get_valid_dates (availableDates a) = Raise e ->
  aggregate (before ++ a :: after) = Raise e.
Proof.
  intros F G. unfold aggregate. rewrite for_each_app.
  match goal with
  | |- context [for_each before ?b ?s] =>
      destruct (for_each_total b before s) as [m ->]
  end.
  - eapply Forall_impl; [|exact F]. intros b [r Hr] s. simpl.
    rewrite Hr. simpl. eauto.
  - simpl. rewrite G. reflexivity.
Qed.

End AggregateFacts.

(** ** Attendee counts *)

Module Import CountFacts.
Import Datetime DatetimeFacts.

Lemma contains_false_getitem (m : dict) (k : datetime) :
  dict_contains m k = false -> dict_getitem m k = Raise KeyError.
Proof.
  induction m as [|[k' v'] m IH]; simpl; [reflexivity|].
  destruct (eqb k k'); simpl; [discriminate|exact IH].
Qed.

Lemma contains_true_getitem (m : dict) (k : datetime) :
  dict_contains m k = true -> exists v, dict_getitem m k = Ok v.
Proof.
  induction m as [|[k' v'] m IH]; simpl; [discriminate|].
  destruct (eqb k k'); simpl; eauto.
Qed.

Lemma getitem_append_same (m : dict) (k : datetime) (x : string)
  (v : list string) :
  dict_getitem m k = Ok v ->
  dict_getitem (dict_append m k x) k = Ok (v ++ [x]).
Proof.
  induction m as [|[k' v'] m IH]; simpl; [discriminate|].
  destruct (eqb k k') eqn:E; simpl; rewrite E.
  - intros H. now injection H as ->.
  - exact IH.
Qed.

Lemma getitem_append_other (m : dict) (d k : datetime) (x : string) :
  k <> d -> dict_getitem (dict_append m d x) k = dict_getitem m k.
Proof.
  intros N. induction m as [|[k' v'] m IH]; simpl; [reflexivity|].
  destruct (eqb d k') eqn:E; simpl.
  - apply eqb_eq in E. subst k'.
    apply eqb_neq in N. now rewrite N.
  - destruct (eqb k k'); [reflexivity|exact IH].
Qed.

Lemma getitem_insert (m : dict) (d k : datetime) (v : list string) :
  dict_getitem (dict_insert m d v) k
  = match dict_getitem m k with
    | Ok w => Ok w
    | Raise _ => if eqb k d then Ok v else Raise KeyError
    end.
Proof.
  unfold dict_insert. induction m as [|[k' v'] m IH]; simpl; [reflexivity|].
  destruct (eqb k k'); [reflexivity|exact IH].
Qed.

(** Recording an attendee under [d] adds one to the count of [d] and
    leaves the other counts alone. *)
Lemma record_date_count (who : string) (m : dict) (d k : datetime) :
  count_in (record_date who m d) k
  = (count_in m k + if eq_dec d k then 1 else 0)%nat.
Proof.
  unfold record_date, count_in.
  destruct (eq_dec d k) as [<-|N].
  - destruct (dict_contains m d) eqn:C.
    + destruct (contains_true_getitem _ _ C) as [v G].
      rewrite (getitem_append_same _ _ who _ G), G, length_app. reflexivity.
    + rewrite getitem_insert, (contains_false_getitem _ _ C), eqb_refl.
      reflexivity.
  - destruct (dict_contains m d).
    + rewrite getitem_append_other by congruence.
      destruct (dict_getitem m k); simpl; lia.
    + rewrite getitem_insert.
      assert (E : eqb k d = false) by (apply eqb_neq; congruence).
      rewrite E. destruct (dict_getitem m k); simpl; lia.
Qed.

Lemma record_dates_count (who : string) (ds : list datetime) (m : dict)
  (k : datetime) :
  count_in (fold_left (record_date who) ds m) k
  = (count_in m k + count_occ eq_dec ds k)%nat.
Proof.
  revert m. induction ds as [|d ds IH]; intros m; simpl; [lia|].
  rewrite IH, record_date_count. destruct (eq_dec d k); lia.
Qed.

Lemma aggregate_from_count (attendees : list attendee) (m0 m : dict)
  (k : datetime) :
  for_each attendees
    (fun a valid_date_mapping =>
       valid_dates <- get_valid_dates (availableDates a) ;;
       Ok (fold_left (record_date (email a)) valid_dates valid_date_mapping))
    m0 = Ok m ->
  count_in m k = (count_in m0 k + support attendees k)%nat.
Proof.
  revert m0. induction attendees as [|a l IH]; simpl; intros m0 H.
  - injection H as <-. unfold support. simpl. lia.
  - destruct (get_valid_dates (availableDates a)) as [r|e] eqn:G;
      simpl in H; [|discriminate].
    rewrite (IH _ H), record_dates_count.
    unfold support, windows_of. simpl. rewrite G. lia.
Qed.

(** The length of the list under a key is the number of times the group
    offers that key. *)
Lemma aggregate_count (attendees : list attendee) (m : dict) (k : datetime) :
  aggregate attendees = Ok m -> count_in m k = support attendees k.
Proof.
  intros H. apply (aggregate_from_count _ _ _ k) in H. exact H.
Qed.

Lemma support_perm (l l' : list attendee) (k : datetime) :
  Permutation l l' -> support l k = support l' k.
Proof.
  unfold support. induction 1; simpl; lia.
Qed.

Lemma aggregate_succeeds_iff (attendees : list attendee) :
  (exists m, aggregate attendees = Ok m) <->
  Forall (fun a => exists r, get_valid_dates (availableDates a) = Ok r)
    attendees.
Proof.
  unfold aggregate. generalize (@nil (datetime * list string)).
  induction attendees as [|a l IH]; intros m0; simpl.
  - split; [constructor|eauto].
  - destruct (get_valid_dates (availableDates a)) as [r|e] eqn:G; simpl.
    + rewrite IH. split.
      * intros F. constructor; eauto.
      * intros F. now inversion F.
    + split.
      * intros [m H]. discriminate.
      * intros F. inversion F as [|? ? [r Hr] _]. congruence.
Qed.

Lemma aggregate_perm (l l' : list attendee) (m : dict) :
  Permutation l l' -> aggregate l = Ok m -> exists m', aggregate l' = Ok m'.
Proof.
  intros P H. apply aggregate_succeeds_iff.
  assert (F : Forall
                (fun a => exists r, get_valid_dates (availableDates a) = Ok r)
                l)
    by (apply aggregate_succeeds_iff; eauto).
  rewrite Forall_forall in *. intros a Ha. apply F.
  now apply (Permutation_in _ (Permutation_sym P)).
Qed.

Lemma count_in_entry (m : dict) (k : datetime) :
  count_in m k = 0%nat
  \/ exists v, In (k, v) m /\ count_in m k = List.length v.
Proof.
  unfold count_in. induction m as [|[k' v'] m IH]; simpl; [now left|].
  destruct (eqb k k') eqn:E.
  - apply eqb_eq in E. subst k'. right. exists v'. auto.
  - destruct IH as [IH|(v & Hv & IH)]; [now left|].
    right. exists v. auto.
Qed.

Lemma dict_append_key_list (m : dict) (k : datetime) (x : string) :
  map fst (dict_append m k x) = map fst m.
Proof.
  induction m as [|[k' v'] m IH]; simpl; [reflexivity|].
  destruct (eqb k k'); simpl; [reflexivity|now rewrite IH].
Qed.

Lemma contains_false_not_key (m : dict) (k : datetime) :
  dict_contains m k = false -> ~ In k (map fst m).
Proof.
  induction m as [|[k' v'] m IH]; simpl; [tauto|].
  destruct (eqb k k') eqn:E; simpl; [discriminate|].
  intros C [->|H]; [|now apply IH].
  now rewrite eqb_refl in E.
Qed.

Lemma record_date_nodup (who : string) (m : dict) (d : datetime) :
  NoDup (map fst m) -> NoDup (map fst (record_date who m d)).
Proof.
  intros N. unfold record_date. destruct (dict_contains m d) eqn:C.
  - now rewrite dict_append_key_list.
  - unfold dict_insert. rewrite map_app. simpl.
    apply NoDup_app; [exact N|repeat constructor; simpl; tauto|].
    intros x Hx [<-|[]]. now apply (contains_false_not_key _ _ C).
Qed.

Lemma record_dates_nodup (who : string) (ds : list datetime) (m : dict) :
  NoDup (map fst m) -> NoDup (map fst (fold_left (record_date who) ds m)).
Proof.
  revert m. induction ds as [|d ds IH]; intros m N; simpl; [exact N|].
  apply IH, record_date_nodup, N.
Qed.

(** No date is a key twice. *)
Lemma aggregate_nodup (attendees : list attendee) (m : dict) :
  aggregate attendees = Ok m -> NoDup (map fst m).
Proof.
  unfold aggregate. intros H.
  eapply (for_each_preserves _ (fun m => NoDup (map fst m))); [| |exact H].
  - intros a s s' _ N B. simpl in B.
    destruct (get_valid_dates (availableDates a)); simpl in B;
      [|discriminate].
    injection B as <-. now apply record_dates_nodup.
  - constructor.
Qed.

Lemma getitem_In (m : dict) (k : datetime) (v : list string) :
  NoDup (map fst m) -> In (k, v) m -> dict_getitem m k = Ok v.
Proof.
  induction m as [|[k' v'] m IH]; simpl; [contradiction|].
  intros N [E|Hin].
  - injection E as -> ->. now rewrite eqb_refl.
  - inversion N as [|? ? Hk N']. subst.
    destruct (eqb k k') eqn:E.
    + apply eqb_eq in E. subst k'. destruct Hk.
      change k with (fst (k, v)). now apply in_map.
    + now apply IH.
Qed.

(** The scan ends with the greatest count seen, and, when that count
    grew, with a key that has it. *)
Lemma scan_result (m : dict) (highest highest' : nat)
  (ret ret' : option datetime) :
  fold_left scan_step m (highest, ret) = (highest', ret') ->
  (highest <= highest')%nat
  /\ (forall e, In e m -> (List.length (snd e) <= highest')%nat)
  /\ ((highest' = highest /\ ret' = ret)
      \/ ((highest < highest')%nat
          /\ exists k v,
               ret' = Some k /\ In (k, v) m /\ List.length v = highest')).
Proof.
  revert highest ret. induction m as [|[k v] m IH]; simpl; intros h r H.
  - injection H as <- <-. repeat split; [lia|tauto|left; auto].
  - destruct (Nat.ltb_spec h (List.length v)) as [L|L];
      apply IH in H; destruct H as (H1 & H2 & H3).
    + repeat split; [lia| |].
      * intros e [<-|He]; simpl; [lia|auto].
      * right. split; [lia|].
        destruct H3 as [[-> ->]|(H3 & k' & v' & -> & Hin & E)].
        -- exists k, v. auto.
        -- exists k', v'. auto.
    + repeat split; [lia| |].
      * intros e [<-|He]; simpl; [lia|auto].
      * destruct H3 as [H3|(H3 & k' & v' & -> & Hin & E)]; [left; exact H3|].
        right. split; [lia|]. exists k', v'. auto.
Qed.

(** The selected entry has the greatest attendee count of all. *)
Lemma select_maximum (m : dict) (d : datetime) (who : list string) :
  NoDup (map fst m) ->
  select m = Ok (d, who) ->
  dict_getitem m d = Ok who
  /\ forall e, In e m -> (List.length (snd e) <= List.length who)%nat.
Proof.
  intros N. unfold select, scan.
  destruct (fold_left scan_step m (0%nat, None)) as [h r] eqn:F.
  simpl. destruct r as [ret|]; [|discriminate].
  destruct (dict_getitem m ret) as [v|e] eqn:G; simpl; [|discriminate].
  intros H. injection H as -> ->. split; [exact G|].
  apply scan_result in F. destruct F as (_ & F2 & F3).
  destruct F3 as [[_ F3]|(_ & k & v & E & Hin & L)]; [discriminate|].
  injection E as <-. rewrite (getitem_In _ _ _ N Hin) in G.
  injection G as <-. now rewrite L.
Qed.

Lemma select_succeeds (m : dict) (k : datetime) :
  (0 < count_in m k)%nat -> exists d who, select m = Ok (d, who).
Proof.
  intros C. destruct (count_in_entry m k) as [Z|(v & Hin & E)]; [lia|].
  unfold select, scan.
  destruct (fold_left scan_step m (0%nat, None)) as [h r] eqn:F.
  apply scan_result in F. destruct F as (_ & F2 & F3).
  specialize (F2 _ Hin). simpl in F2.
  destruct F3 as [[-> _]|(_ & k' & v' & -> & Hin' & L)]; [lia|].
  simpl.
  destruct (dict_contains m k') eqn:D.
  - destruct (contains_true_getitem _ _ D) as [w ->]. simpl. eauto.
  - exfalso. apply (contains_false_not_key _ _ D).
    change k' with (fst (k', v')). now apply in_map.
Qed.

Lemma count_in_le_selected (m : dict) (d k : datetime) (who : list string) :
  NoDup (map fst m) ->
  select m = Ok (d, who) ->
  count_in m d = List.length who
  /\ (count_in m k <= List.length who)%nat.
Proof.
  intros N S. destruct (select_maximum _ _ _ N S) as [G M]. split.
  - unfold count_in. now rewrite G.
  - destruct (count_in_entry m k) as [->|(v & Hin & ->)]; [lia|].
    apply (M _ Hin).
Qed.

(** The attendee count of the selection does not depend on the order of
    the attendees; the selected date may. *)
Lemma selected_count_perm (l l' : list attendee) (d : datetime)
  (who : list string) :
  Permutation l l' ->
  organize_event l = Ok (d, who) ->
  exists d' who',
    organize_event l' = Ok (d', who')
    /\ List.length who' = List.length who.
Proof.
  intros P. unfold organize_event.
  destruct (aggregate l) as [m|e] eqn:A; simpl; [|discriminate].
  intros S. destruct (aggregate_perm _ _ _ P A) as [m' A'].
  rewrite A'. simpl.
  pose proof (aggregate_nodup _ _ A) as N.
  pose proof (aggregate_nodup _ _ A') as N'.
  assert (C : forall k, count_in m k = count_in m' k).
  { intros k. rewrite (aggregate_count _ _ k A), (aggregate_count _ _ k A').
    now apply support_perm. }
  destruct (count_in_le_selected _ _ d _ N S) as [Ed _].
  assert (Pos : (0 < List.length who)%nat).
  { destruct (select_maximum _ _ _ N S) as [_ M].
    unfold select, scan in S.
    destruct (fold_left scan_step m (0%nat, None)) as [h r] eqn:F.
    simpl in S. destruct r as [ret|]; [|discriminate].
    apply scan_result in F. destruct F as (_ & _ & F3).
    destruct F3 as [[_ F3]|(F3 & k & v & _ & Hin & L)]; [discriminate|].
    specialize (M _ Hin). simpl in M. lia. }
  destruct (select_succeeds m' d) as (d' & who' & S');
    [rewrite <- C; lia|].
  exists d', who'. split; [exact S'|].
  destruct (count_in_le_selected _ _ d' _ N S) as [_ Le].
  destruct (count_in_le_selected _ _ d _ N' S') as [Ed' Le'].
  rewrite C, Ed' in Le. rewrite <- C, Ed in Le'. lia.
Qed.

End CountFacts.

(** ** Parsing and formatting *)

Module Import ParseFormat.
Import Datetime DatetimeFacts.

Lemma digit_cases (c : ascii) :
  is_digit c = true ->
  In c ["0"; "1"; "2"; "3"; "4"; "5"; "6"; "7"; "8"; "9"]%char.
Proof.
  destruct c as [[] [] [] [] [] [] [] []]; intros H;
    try discriminate H; simpl; tauto.
Qed.

Ltac each_digit H :=
  apply digit_cases in H; simpl in H;
  repeat (destruct H as [H|H]; [subst|]); [..|contradiction].

Lemma digit_char_val (c : ascii) :
  is_digit c = true -> digit_char (digit_val c) = c.
Proof. intros H. each_digit H; reflexivity. Qed.

Lemma digit_val_range (c : ascii) :
  is_digit c = true -> 0 <= digit_val c <= 9.
Proof. intros H. each_digit H; vm_compute; split; discriminate. Qed.

(** Two digits followed by a hyphen: the month group takes both digits or
    the match fails. *)
Lemma month_two_digits {B : Type} (k : Z -> string -> option B)
  (a b : ascii) (r : string) :
  is_digit a = true -> is_digit b = true ->
  first_match (after_month k) (match_m (String a (String b (String "-" r))))
  = if (1 <=? 10 * digit_val a + digit_val b)
       && (10 * digit_val a + digit_val b <=? 12)
    then k (10 * digit_val a + digit_val b) r
    else None.
Proof.
  intros Ha Hb. each_digit Ha; each_digit Hb;
    vm_compute; try reflexivity; destruct (k _ r); reflexivity.
Qed.

(** Two digits at the end: the day group takes both, or takes the first
    and leaves the second unconverted, or (for [00]) does not match. *)
Lemma day_two_digits (y m : Z) (c d : ascii) :
  is_digit c = true -> is_digit d = true ->
  match_day_group y m (String c (String d EmptyString))
  = if (1 <=? 10 * digit_val c + digit_val d)
       && (10 * digit_val c + digit_val d <=? 31)
    then Some (y, m, 10 * digit_val c + digit_val d, EmptyString)
    else if 1 <=? digit_val c
    then Some (y, m, digit_val c, String d EmptyString)
    else None.
Proof.
  intros Hc Hd. each_digit Hc; each_digit Hd; reflexivity.
Qed.

Lemma pad2_digits (a b : ascii) (rest : string) :
  is_digit a = true -> is_digit b = true ->
  pad2 (10 * digit_val a + digit_val b) rest = String a (String b rest).
Proof.
  intros Ha Hb. unfold pad2.
  pose proof (digit_val_range _ Ha). pose proof (digit_val_range _ Hb).
  replace ((10 * digit_val a + digit_val b) / 10 mod 10) with (digit_val a)
    by (Z.div_mod_to_equations; lia).
  replace ((10 * digit_val a + digit_val b) mod 10) with (digit_val b)
    by (Z.div_mod_to_equations; lia).
  now rewrite !digit_char_val.
Qed.

Lemma pad4_digits (a b c d : ascii) (rest : string) :
  is_digit a = true -> is_digit b = true ->
  is_digit c = true -> is_digit d = true ->
  pad4 (1000 * digit_val a + 100 * digit_val b + 10 * digit_val c
        + digit_val d) rest
  = String a (String b (String c (String d rest))).
Proof.
  intros Ha Hb Hc Hd. unfold pad4, pad2.
  pose proof (digit_val_range _ Ha). pose proof (digit_val_range _ Hb).
  pose proof (digit_val_range _ Hc). pose proof (digit_val_range _ Hd).
  set (n := 1000 * digit_val a + 100 * digit_val b + 10 * digit_val c
            + digit_val d).
  replace (n / 1000 mod 10) with (digit_val a)
    by (subst n; Z.div_mod_to_equations; lia).
  replace (n / 100 mod 10) with (digit_val b)
    by (subst n; Z.div_mod_to_equations; lia).
  replace (n / 10 mod 10) with (digit_val c)
    by (subst n; Z.div_mod_to_equations; lia).
  replace (n mod 10) with (digit_val d)
    by (subst n; Z.div_mod_to_equations; lia).
  now rewrite !digit_char_val.
Qed.

Lemma unpadded_four_digits (n : Z) (rest : string) :
  1000 <= n -> unpadded n rest = pad4 n rest.
Proof.
  intros H. unfold unpadded.
  destruct (Z.ltb_spec n 10); [lia|].
  destruct (Z.ltb_spec n 100); [lia|].
  destruct (Z.ltb_spec n 1000); [lia|reflexivity].
Qed.

(** Below 1000 the unpadded year has fewer than four digits: the hyphen
    that follows it comes where a four-digit year still has a digit. *)
Lemma unpadded_short (n : Z) (y1 y2 y3 y4 : ascii) (r r' : string) :
  is_digit y2 = true -> is_digit y3 = true -> is_digit y4 = true ->
  n < 1000 ->
  unpadded n (String "-" r) <> String y1 (String y2 (String y3 (String y4 r'))).
Proof.
  intros H2 H3 H4 L. unfold unpadded, pad2.
  destruct (n <? 10); [|destruct (n <? 100); [|destruct (Z.ltb_spec n 1000);
                                                 [|lia]]];
    intros E; injection E as; subst; discriminate.
Qed.

End ParseFormat.

Module Import IsoStrings.
Import Datetime DatetimeFacts.

Lemma match_hyphen_hyphen (r : string) : match_hyphen (String "-" r) = Some r.
Proof. reflexivity. Qed.

(** [strptime] on a string of the form [YYYY-MM-DD]. *)
Lemma strptime_iso (y1 y2 y3 y4 m1 m2 d1 d2 : ascii) :
  is_digit y1 = true -> is_digit y2 = true ->
  is_digit y3 = true -> is_digit y4 = true ->
  is_digit m1 = true -> is_digit m2 = true ->
  is_digit d1 = true -> is_digit d2 = true ->
  forall x,
  strptime
    (String y1 (String y2 (String y3 (String y4 (String "-"
      (String m1 (String m2 (String "-" (String d1 (String d2
        EmptyString)))))))))) = Ok x ->
  x = make (1000 * digit_val y1 + 100 * digit_val y2 + 10 * digit_val y3
            + digit_val y4)
           (10 * digit_val m1 + digit_val m2)
           (10 * digit_val d1 + digit_val d2)
  /\ valid x = true.
Proof.
  intros Hy1 Hy2 Hy3 Hy4 Hm1 Hm2 Hd1 Hd2 x.
  unfold strptime, regex_match, match_Y.
  rewrite Hy1, Hy2, Hy3, Hy4. cbn [andb].
  rewrite match_hyphen_hyphen, month_two_digits by assumption.
  destruct ((1 <=? 10 * digit_val m1 + digit_val m2)
            && (10 * digit_val m1 + digit_val m2 <=? 12));
    [|discriminate].
  rewrite day_two_digits by assumption.
  destruct ((1 <=? 10 * digit_val d1 + digit_val d2)
            && (10 * digit_val d1 + digit_val d2 <=? 31)).
  - match goal with
    | |- context [check_date_fields ?y ?m ?d] =>
        destruct (check_date_fields y m d) eqn:V
    end; [|discriminate].
    intros H. injection H as <-. split; [reflexivity|exact V].
  - destruct (1 <=? digit_val d1); discriminate.
Qed.

Lemma iso_form_inv (s : string) :
  iso_form s = true ->
  exists y1 y2 y3 y4 m1 m2 d1 d2,
    s = String y1 (String y2 (String y3 (String y4 (String "-"
          (String m1 (String m2 (String "-" (String d1 (String d2
            EmptyString)))))))))
    /\ is_digit y1 = true /\ is_digit y2 = true
    /\ is_digit y3 = true /\ is_digit y4 = true
    /\ is_digit m1 = true /\ is_digit m2 = true
    /\ is_digit d1 = true /\ is_digit d2 = true.
Proof.
  destruct s as [|y1 [|y2 [|y3 [|y4 [|h1 [|m1 [|m2 [|h2 [|d1 [|d2 [|? ?]]]]]]]]]]];
    try discriminate.
  unfold iso_form. rewrite !andb_true_iff, !Ascii.eqb_eq.
  intros [[[[[[[[[? ?] ?] ?] ->] ?] ?] ->] ?] ?].
  exists y1, y2, y3, y4, m1, m2, d1, d2. repeat split; assumption.
Qed.

End IsoStrings.

(** ** What the pattern leaves unmatched *)

Module Import PatternFacts.
Import Datetime.

Lemma string_app_assoc (a b c : string) :
  ((a ++ b) ++ c)%string = (a ++ (b ++ c))%string.
Proof. induction a as [|x a IH]; simpl; [reflexivity|now rewrite IH]. Qed.

Lemma string_app_length (a b : string) :
  String.length (a ++ b) = (String.length a + String.length b)%nat.
Proof. induction a as [|x a IH]; simpl; [reflexivity|now rewrite IH]. Qed.

(** What is left of what is left. *)
Lemma rest_of_rest (s r r' p : string) :
  s = (p ++ r)%string ->
  (exists q, r = (q ++ r')%string) ->
  exists q, s = (q ++ r')%string /\ (p <> EmptyString -> q <> EmptyString).
Proof.
  intros -> [q ->]. exists (p ++ q)%string. split.
  - now rewrite string_app_assoc.
  - destruct p; [contradiction|discriminate].
Qed.

Lemma match_Y_rest (s r : string) (y : Z) :
  match_Y s = Some (y, r) -> exists p, s = (p ++ r)%string /\ p <> EmptyString.
Proof.
  destruct s as [|a [|b [|c [|d s]]]]; try discriminate. simpl.
  destruct (is_digit a && is_digit b && is_digit c && is_digit d);
    [|discriminate].
  intros H. injection H as _ <-.
  exists (String a (String b (String c (String d EmptyString)))).
  split; [reflexivity|discriminate].
Qed.

Lemma match_hyphen_rest (s r : string) :
  match_hyphen s = Some r -> exists p, s = (p ++ r)%string.
Proof.
  destruct s as [|c s]; simpl; [discriminate|].
  destruct (Ascii.eqb c "-"); [|discriminate].
  intros H. injection H as <-. now exists (String c EmptyString).
Qed.

Lemma alt2_rest (lo1 hi1 lo2 hi2 v : Z) (s r : string) :
  In (v, r) (alt2 lo1 hi1 lo2 hi2 s) -> exists p, s = (p ++ r)%string.
Proof.
  destruct s as [|a [|b s]]; simpl; try contradiction.
  destruct (in_range lo1 hi1 a && in_range lo2 hi2 b); [|contradiction].
  intros [H|[]]. injection H as _ <-.
  now exists (String a (String b EmptyString)).
Qed.

Lemma alt1_rest (lo hi v : Z) (s r : string) :
  In (v, r) (alt1 lo hi s) -> exists p, s = (p ++ r)%string.
Proof.
  destruct s as [|a s]; simpl; [contradiction|].
  destruct (in_range lo hi a); [|contradiction].
  intros [H|[]]. injection H as _ <-. now exists (String a EmptyString).
Qed.

Lemma alt_space_rest (v : Z) (s r : string) :
  In (v, r) (alt_space s) -> exists p, s = (p ++ r)%string.
Proof.
  destruct s as [|a [|b s]]; simpl; try contradiction.
  destruct (Ascii.eqb a " " && in_range 1 9 b); [|contradiction].
  intros [H|[]]. injection H as _ <-.
  now exists (String a (String b EmptyString)).
Qed.

Lemma match_m_rest (v : Z) (s r : string) :
  In (v, r) (match_m s) -> exists p, s = (p ++ r)%string.
Proof.
  unfold match_m. rewrite !in_app_iff.
  intros [H|[H|H]]; eauto using alt2_rest, alt1_rest.
Qed.

Lemma match_d_rest (v : Z) (s r : string) :
  In (v, r) (match_d s) -> exists p, s = (p ++ r)%string.
Proof.
  unfold match_d. rewrite !in_app_iff.
  intros [H|[H|[H|[H|H]]]]; eauto using alt2_rest, alt1_rest, alt_space_rest.
Qed.

Lemma first_match_In {A B : Type} (k : A -> option B) (alts : list A)
  (b : B) :
  first_match k alts = Some b -> exists a, In a alts /\ k a = Some b.
Proof.
  induction alts as [|a alts IH]; simpl; [discriminate|].
  destruct (k a) as [b'|] eqn:E.
  - intros H. injection H as <-. exists a. now split; [left|].
  - intros H. destruct (IH H) as (a' & Hin & Ha'). exists a'.
    now split; [right|].
Qed.

(** A match of the pattern consumes a non-empty leading part of the
    string; the rest is what follows it. *)
Lemma regex_match_rest (s rest : string) (y m d : Z) :
  regex_match s = Some (y, m, d, rest) ->
  exists matched, s = (matched ++ rest)%string /\ matched <> EmptyString.
Proof.
  unfold regex_match.
  destruct (match_Y s) as [[y0 s1]|] eqn:EY; [|discriminate].
  destruct (match_hyphen s1) as [s2|] eqn:E1; [|discriminate].
  intros H. apply first_match_In in H. destruct H as ([mv s3] & Hm & H).
  unfold after_month in H. simpl in H.
  destruct (match_hyphen s3) as [s4|] eqn:E2; [|discriminate].
  unfold match_day_group in H.
  destruct (match_d s4) as [|[d0 r0] l] eqn:ED; [discriminate|].
  injection H as _ _ -> ->.
  assert (Hd : In (d, rest) (match_d s4)) by (rewrite ED; now left).
  apply match_Y_rest in EY. destruct EY as (p1 & E & N1).
  apply match_hyphen_rest in E1. apply match_m_rest in Hm.
  apply match_hyphen_rest in E2. apply match_d_rest in Hd.
  destruct E2 as [p4 E2].
  destruct (rest_of_rest _ _ rest _ E2 Hd) as (q4 & E4 & _).
  destruct Hm as [p3 Hm].
  destruct (rest_of_rest _ _ rest _ Hm (ex_intro _ q4 E4)) as (q3 & E3 & _).
  destruct E1 as [p2 E1].
  destruct (rest_of_rest _ _ rest _ E1 (ex_intro _ q3 E3)) as (q2 & E2' & _).
  destruct (rest_of_rest _ _ rest _ E (ex_intro _ q2 E2')) as (q1 & E1' & N).
  exists q1. split; [exact E1'|now apply N].
Qed.

(** The rest is never the whole string. *)
Lemma regex_match_rest_neq (s rest : string) (y m d : Z) :
  regex_match s = Some (y, m, d, rest) -> rest <> s.
Proof.
  intros H. destruct (regex_match_rest _ _ _ _ _ H) as (p & E & N).
  intros ->. apply (f_equal String.length) in E.
  rewrite string_app_length in E.
  destruct p; [contradiction|simpl in E; lia].
Qed.

(** The error of [strptime], by what the pattern matched. *)
Lemma strptime_error (s : string) (why : value_error) :
  strptime s = Raise (ValueError why) ->
  match regex_match s with
  | None => why = NoMatch s
  | Some (_, _, _, rest) =>
      why = if String.eqb rest EmptyString then OutOfRange else UnconvertedData rest
  end.
Proof.
  unfold strptime. destruct (regex_match s) as [[[[y m] d] rest]|].
  - destruct rest as [|c rest]; simpl.
    + destruct (check_date_fields y m d); [discriminate|].
      intros H. now injection H as <-.
    + intros H. now injection H as <-.
  - intros H. now injection H as <-.
Qed.

End PatternFacts.

(** ** The claims of the specification *)

Import Datetime DatetimeFacts.

(** C1.  The specification asks the selection to return, among the dates
    with the greatest number of attendees, the earliest one, whatever the
    insertion order of the mapping; the docstring of [organize_event]
    promises the same.  The loop of lines 77-81 instead keeps the first key
    that reaches the maximum in the dictionary's iteration order: for the
    support [{2024-05-03: [c,d], 2024-05-01: [a,b]}], which [organize_event]
    builds when the attendees of 2024-05-03 come first, it returns
    2024-05-03. *)
Theorem select_tie_follows_insertion_order :
  aggregate [late "c"; late "d"; early "a"; early "b"]
    = Ok [(may_03, ["c"; "d"]); (may_01, ["a"; "b"])]
  /\ select [(may_03, ["c"; "d"]); (may_01, ["a"; "b"])]
     = Ok (may_03, ["c"; "d"])
  /\ select [(may_01, ["a"; "b"]); (may_03, ["c"; "d"])]
     = Ok (may_01, ["a"; "b"])
  /\ ltb may_01 may_03 = true.
Proof. repeat split; reflexivity. Qed.

(** C2.  The specification asks for a distinguishable Absent value when the
    aggregation is empty, and the docstring of [organize_event] promises
    [None]; the code reaches [valid_date_mapping[ret]] with [ret = None]
    and raises [KeyError]. *)
Theorem empty_aggregation_raises (attendees : list attendee) :
  aggregate attendees = Ok [] ->
  organize_event attendees = Raise KeyError.
Proof.
  intros H. unfold organize_event. rewrite H. reflexivity.
Qed.

Lemma empty_aggregation_raises_witness :
  organize_event [] = Raise KeyError
  /\ organize_event [mk_attendee "a" ["2024-05-01"; "2024-05-03"]]
     = Raise KeyError.
Proof.
  split.
  - apply (empty_aggregation_raises []). reflexivity.
  - apply (empty_aggregation_raises
             [mk_attendee "a" ["2024-05-01"; "2024-05-03"]]).
    reflexivity.
Defined.

(** C3.  The specification asks that permuting the attendees never changes
    the selected date or count.  With two dates tied at two attendees, the
    order of the attendees decides which date enters the dictionary first,
    and so which one [organize_event] returns. *)
Theorem permuted_attendees_change_selection :
  Permutation [late "c"; late "d"; early "a"; early "b"]
              [early "a"; early "b"; late "c"; late "d"]
  /\ organize_event [late "c"; late "d"; early "a"; early "b"]
     = Ok (may_03, ["c"; "d"])
  /\ organize_event [early "a"; early "b"; late "c"; late "d"]
     = Ok (may_01, ["a"; "b"]).
Proof.
  split; [|split; reflexivity].
  apply (Permutation_app_comm [late "c"; late "d"] [early "a"; early "b"]).
Qed.

(** C4.  The specification asks [get_valid_dates] to treat its input as a
    set, so that no start date is returned twice and a repeated entry never
    inflates a date's support; the docstring of [organize_event] promises
    the date "where the most partners will make it".  Nothing in lines
    39-48 removes a repeated date: an attendee that lists 2024-05-01 three
    times gets that start date three times, is recorded three times under
    it, and alone outweighs the two attendees of 2024-05-03.  Listing the
    same two days once each, the same attendee does not. *)
Theorem repeated_dates_inflate_support :
  get_valid_dates (availableDates (thrice "a")) = Ok [may_01; may_01; may_01]
  /\ ~ NoDup [may_01; may_01; may_01]
  /\ aggregate [late "b"; late "c"; thrice "a"]
     = Ok [(may_03, ["b"; "c"]); (may_01, ["a"; "a"; "a"])]
  /\ organize_event [late "b"; late "c"; thrice "a"]
     = Ok (may_01, ["a"; "a"; "a"])
  /\ organize_event [late "b"; late "c"; early "a"]
     = Ok (may_03, ["b"; "c"]).
Proof.
  split; [reflexivity|split; [|repeat split; reflexivity]].
  intros H. inversion H as [|x l Hin _]. apply Hin. now left.
Qed.

(** C5.  For every finite set of well-formed dates, [get_valid_dates]
    returns a result, and that result contains a date exactly when the
    date and the day after it are both in the set; so the empty set and
    every singleton give the empty result. *)
Theorem get_valid_dates_windows (available_dates : list string)
  (dates : list datetime) :
  map_raise strptime available_dates = Ok dates ->
  NoDup dates ->
  exists r,
    get_valid_dates available_dates = Ok r
    /\ (forall d,
          In d r <->
          In d dates /\ exists n, add_day d = Ok n /\ In n dates)
    /\ ((List.length dates <= 1)%nat -> r = []).
Proof.
  intros P N.
  destruct (get_valid_dates_returns _ _ P (NoDup_count_le _ max_date N))
    as [r H].
  exists r. split; [exact H|].
  assert (W : forall d,
             In d r <->
             In d dates /\ exists n, add_day d = Ok n /\ In n dates)
    by (intros d; apply (get_valid_dates_In _ _ _ _ P H)).
  split; [exact W|].
  intros L. destruct r as [|d r']; [reflexivity|]. exfalso.
  destruct (proj1 (W d) (or_introl eq_refl)) as (Hd & n & E & Hn).
  apply add_day_neq in E.
  destruct dates as [|x [|y l]]; simpl in *; try lia.
  destruct Hd as [<-|[]], Hn as [<-|[]]. contradiction.
Qed.

Lemma get_valid_dates_windows_witness :
  exists r,
    get_valid_dates ["2024-06-03"; "2024-06-01"; "2024-06-02"; "2024-06-10"]
      = Ok r
    /\ (forall d,
          In d r <->
          In d [make 2024 6 3; make 2024 6 1; make 2024 6 2; make 2024 6 10]
          /\ exists n,
               add_day d = Ok n
               /\ In n [make 2024 6 3; make 2024 6 1; make 2024 6 2;
                        make 2024 6 10])
    /\ ((List.length
           [make 2024 6 3; make 2024 6 1; make 2024 6 2; make 2024 6 10]
         <= 1)%nat -> r = []).
Proof.
  apply (get_valid_dates_windows
           ["2024-06-03"; "2024-06-01"; "2024-06-02"; "2024-06-10"]).
  - reflexivity.
  - repeat constructor; simpl; intuition discriminate.
Defined.

(** C6, as stated: every string that does not parse would make
    [get_valid_dates] raise an error that identifies the offending value.
    For a string that matches the pattern but names no calendar date, the
    [ValueError] comes from the date constructor ("day is out of range for
    month") and quotes nothing of the string; for a string with text after
    a date, it quotes only that text ("unconverted data remains"). *)
Lemma out_of_range_date_not_identified :
  strptime "2024-02-30" = Raise (ValueError OutOfRange)
  /\ get_valid_dates ["2024-02-30"] = Raise (ValueError OutOfRange)
  /\ ~ identifies (ValueError OutOfRange) "2024-02-30"
  /\ get_valid_dates ["2024-05-01T00:00:00"]
     = Raise (ValueError (UnconvertedData "T00:00:00"))
  /\ ~ identifies (ValueError (UnconvertedData "T00:00:00"))
        "2024-05-01T00:00:00".
Proof.
  unfold identifies. repeat split; try reflexivity; discriminate.
Qed.

(** C6, amended.  When an attendee's [availableDates] holds a string that
    [strptime] rejects, [get_valid_dates] raises the [ValueError] of the
    first such string, before any sorting or scanning, and [organize_event]
    lets the error through unchanged once the attendees before this one
    have been processed.  The error quotes the whole string exactly when
    no leading part of it matches the date pattern.  When a leading part
    matches, the error is "unconverted data remains" with the text that
    follows the matched part, if there is any, and the date constructor's
    range error, which quotes nothing, if there is none; in neither case
    is the quoted text the string. *)
Theorem malformed_date_raises (available_dates : list string) (s : string) :
  In s available_dates ->
  (forall x, strptime s <> Ok x) ->
  exists before_bad bad after_bad why,
    available_dates = before_bad ++ bad :: after_bad
    /\ Forall (fun s' => exists x, strptime s' = Ok x) before_bad
    /\ strptime bad = Raise (ValueError why)
    /\ get_valid_dates available_dates = Raise (ValueError why)
    /\ (identifies (ValueError why) bad <-> regex_match bad = None)
    /\ (forall y m d rest,
          regex_match bad = Some (y, m, d, rest) ->
          (exists matched,
             bad = (matched ++ rest)%string /\ matched <> EmptyString)
          /\ why = (if String.eqb rest EmptyString
                    then OutOfRange else UnconvertedData rest)
          /\ quoted why <> Some bad)
    /\ forall before a after,
         Forall (fun b => exists r, get_valid_dates (availableDates b) = Ok r)
           before ->
         availableDates a = available_dates ->
         organize_event (before ++ a :: after) = Raise (ValueError why).
Proof.
  intros Hin Hs.
  destruct (map_raise_fails strptime _ _ Hin Hs) as [e P].
  destruct (map_raise_first strptime _ _ P)
    as (pre & bad & post & E & Fpre & Hbad).
  destruct (strptime_raises _ _ Hbad) as [why ->].
  exists pre, bad, post, why.
  pose proof (get_valid_dates_parse_error _ _ P) as G.
  pose proof (strptime_error _ _ Hbad) as W.
  do 4 (split; [assumption|]). split; [|split].
  - unfold identifies.
    destruct (regex_match bad) as [[[[y m] d] rest]|]; split;
      try discriminate; try congruence.
    intros I. injection I as ->.
    destruct (String.eqb rest EmptyString); discriminate.
  - intros y m d rest M. rewrite M in W. repeat apply conj.
    + exact (regex_match_rest _ _ _ _ _ M).
    + exact W.
    + subst why. destruct (String.eqb rest EmptyString); simpl;
        [discriminate|].
      intros Q. injection Q as Q.
      exact (regex_match_rest_neq _ _ _ _ _ M Q).
  - intros before a after F Ea. unfold organize_event.
    rewrite (aggregate_propagates before after a (ValueError why) F);
      [reflexivity|].
    now rewrite Ea.
Qed.

Lemma malformed_date_raises_witness :
  exists before_bad bad after_bad why,
    ["2024-05-01"; "2024-13-40"; "2024-02-30"]
      = before_bad ++ bad :: after_bad
    /\ Forall (fun s' => exists x, strptime s' = Ok x) before_bad
    /\ strptime bad = Raise (ValueError why)
    /\ get_valid_dates ["2024-05-01"; "2024-13-40"; "2024-02-30"]
       = Raise (ValueError why)
    /\ (identifies (ValueError why) bad <-> regex_match bad = None)
    /\ (forall y m d rest,
          regex_match bad = Some (y, m, d, rest) ->
          (exists matched,
             bad = (matched ++ rest)%string /\ matched <> EmptyString)
          /\ why = (if String.eqb rest EmptyString
                    then OutOfRange else UnconvertedData rest)
          /\ quoted why <> Some bad)
    /\ forall before a after,
         Forall (fun b => exists r, get_valid_dates (availableDates b) = Ok r)
           before ->
         availableDates a = ["2024-05-01"; "2024-13-40"; "2024-02-30"] ->
         organize_event (before ++ a :: after) = Raise (ValueError why).
Proof.
  apply (malformed_date_raises
           ["2024-05-01"; "2024-13-40"; "2024-02-30"] "2024-13-40").
  - simpl. auto.
  - intros x. vm_compute. discriminate.
Defined.

(** C7.  Whenever [organize_event] returns a start date, some attendee of
    the group lists both that date and the day after it. *)
Theorem selected_date_has_attendee (attendees : list attendee)
  (d : datetime) (who : list string) :
  organize_event attendees = Ok (d, who) ->
  exists a n s1 s2,
    In a attendees
    /\ In s1 (availableDates a) /\ strptime s1 = Ok d
    /\ add_day d = Ok n
    /\ In s2 (availableDates a) /\ strptime s2 = Ok n.
Proof.
  unfold organize_event. intros H.
  destruct (aggregate attendees) as [m|e] eqn:A; simpl in H; [|discriminate].
  apply select_key in H.
  destruct (aggregate_keys _ _ _ A H) as (a & r & Ha & G & Hd).
  destruct (get_valid_dates_inv _ _ G) as (dates & P & _ & _).
  apply (get_valid_dates_In _ _ _ d P G) in Hd.
  destruct Hd as (Hd & n & E & Hn).
  destruct (parsed_In _ _ _ P Hd) as (s1 & Hs1 & E1).
  destruct (parsed_In _ _ _ P Hn) as (s2 & Hs2 & E2).
  exists a, n, s1, s2. repeat split; assumption.
Qed.

Lemma selected_date_has_attendee_witness :
  exists a n s1 s2,
    In a [mk_attendee "a" ["2024-06-01"; "2024-06-02"];
          mk_attendee "b" ["2024-06-02"; "2024-06-03"];
          mk_attendee "c" ["2024-06-01"; "2024-06-02"; "2024-06-03"]]
    /\ In s1 (availableDates a) /\ strptime s1 = Ok (make 2024 6 1)
    /\ add_day (make 2024 6 1) = Ok n
    /\ In s2 (availableDates a) /\ strptime s2 = Ok n.
Proof.
  apply (selected_date_has_attendee
           [mk_attendee "a" ["2024-06-01"; "2024-06-02"];
            mk_attendee "b" ["2024-06-02"; "2024-06-03"];
            mk_attendee "c" ["2024-06-01"; "2024-06-02"; "2024-06-03"]]
           (make 2024 6 1) ["a"; "c"]).
  reflexivity.
Defined.

(** C8.  In every record built by [construct], [attendeeCount] is the
    length of [attendees]. *)
Theorem construct_count (zero_pad_year : bool)
  (event : datetime * list string) (country : string) :
  attendeeCount (construct zero_pad_year event country)
  = List.length (attendees (construct zero_pad_year event country)).
Proof. reflexivity. Qed.

(** C9.  For every list of well-formed date strings, the window starts
    returned by [get_valid_dates] are in ascending calendar order; and a
    result is returned, unless 9999-12-31 is listed more than once (its
    next day does not exist, and the scan reaches it only when a second
    copy follows it in the sorted list). *)
Theorem get_valid_dates_sorted (available_dates : list string)
  (dates : list datetime) :
  map_raise strptime available_dates = Ok dates ->
  (forall r, get_valid_dates available_dates = Ok r -> StronglySorted le r)
  /\ ((count_occ eq_dec dates max_date <= 1)%nat ->
      exists r, get_valid_dates available_dates = Ok r).
Proof.
  intros P. split.
  - intros r H. rewrite (get_valid_dates_filter _ _ _ P H).
    apply StronglySorted_filter, sort_sorted.
  - now apply get_valid_dates_returns.
Qed.

Lemma get_valid_dates_sorted_witness :
  (forall r,
     get_valid_dates
       ["2024-06-10"; "2024-06-03"; "2024-06-01"; "2024-06-09"; "2024-06-02"]
     = Ok r ->
     StronglySorted le r)
  /\ ((count_occ eq_dec
         [make 2024 6 10; make 2024 6 3; make 2024 6 1; make 2024 6 9;
          make 2024 6 2] max_date <= 1)%nat ->
      exists r,
        get_valid_dates
          ["2024-06-10"; "2024-06-03"; "2024-06-01"; "2024-06-09";
           "2024-06-02"]
        = Ok r).
Proof.
  apply (get_valid_dates_sorted
           ["2024-06-10"; "2024-06-03"; "2024-06-01"; "2024-06-09";
            "2024-06-02"]).
  reflexivity.
Defined.

(** C10, as stated: every accepted string of the form [YYYY-MM-DD] would
    come back unchanged from [strptime] followed by [strftime].  A year
    below 1000 is accepted with its leading zeros, and a C library that
    prints [%Y] without padding (glibc) drops them. *)
Lemma year_below_1000_loses_zeros :
  iso_form "0999-01-01" = true
  /\ strptime "0999-01-01" = Ok (make 999 1 1)
  /\ startDate (construct false (make 999 1 1, ["a"]) "Ireland")
     = "999-01-01"
  /\ startDate (construct false (make 999 1 1, ["a"]) "Ireland")
     <> "0999-01-01".
Proof.
  repeat split; try reflexivity. vm_compute. discriminate.
Qed.

(** C10, amended.  An accepted string of the form [YYYY-MM-DD], written
    with the digits [0] to [9], comes back unchanged from [strptime]
    followed by [strftime], and so as the [startDate] of [construct], when
    its year is 1000 or later, or on a platform whose [strftime] pads [%Y]
    to four digits.  For every accepted year below 1000, a platform that
    prints [%Y] without padding gives a different, shorter string. *)
Theorem parse_format_roundtrip (zero_pad_year : bool) (s : string)
  (x : datetime) :
  iso_form s = true ->
  strptime s = Ok x ->
  (zero_pad_year = true \/ 1000 <= year x ->
   strftime zero_pad_year x = s
   /\ forall who country,
        startDate (construct zero_pad_year (x, who) country) = s)
  /\ (zero_pad_year = false -> year x < 1000 ->
      strftime zero_pad_year x <> s
      /\ (String.length (strftime zero_pad_year x) < String.length s)%nat
      /\ forall who country,
           startDate (construct zero_pad_year (x, who) country) <> s).
Proof.
  intros I P.
  destruct (iso_form_inv _ I)
    as (y1 & y2 & y3 & y4 & m1 & m2 & d1 & d2 & -> &
        Hy1 & Hy2 & Hy3 & Hy4 & Hm1 & Hm2 & Hd1 & Hd2).
  destruct (strptime_iso _ _ _ _ _ _ _ _ Hy1 Hy2 Hy3 Hy4 Hm1 Hm2 Hd1 Hd2 _ P)
    as [-> _].
  cbn [year month day] in *. split.
  - intros Y.
    assert (R : strftime zero_pad_year
                  (make (1000 * digit_val y1 + 100 * digit_val y2
                         + 10 * digit_val y3 + digit_val y4)
                        (10 * digit_val m1 + digit_val m2)
                        (10 * digit_val d1 + digit_val d2))
                = String y1 (String y2 (String y3 (String y4 (String "-"
                    (String m1 (String m2 (String "-" (String d1 (String d2
                      EmptyString))))))))));
      [|split; [exact R|intros; exact R]].
    unfold strftime. cbn [year month day].
    assert (F : forall rest,
               (if zero_pad_year then pad4 else unpadded)
                 (1000 * digit_val y1 + 100 * digit_val y2
                  + 10 * digit_val y3 + digit_val y4) rest
               = String y1 (String y2 (String y3 (String y4 rest)))).
    { intros rest. rewrite <- (pad4_digits y1 y2 y3 y4 rest) by assumption.
      destruct zero_pad_year; [reflexivity|].
      destruct Y as [Y|Y]; [discriminate|].
      now apply unpadded_four_digits. }
    rewrite F, !pad2_digits by assumption. reflexivity.
  - intros -> Y.
    assert (R : strftime false
                  (make (1000 * digit_val y1 + 100 * digit_val y2
                         + 10 * digit_val y3 + digit_val y4)
                        (10 * digit_val m1 + digit_val m2)
                        (10 * digit_val d1 + digit_val d2))
                <> String y1 (String y2 (String y3 (String y4 (String "-"
                     (String m1 (String m2 (String "-" (String d1 (String d2
                       EmptyString))))))))))
      by (unfold strftime; cbn [year month day];
          now apply unpadded_short).
    split; [exact R|split; [|intros; exact R]].
    unfold strftime, unpadded, pad2. cbn [year month day].
    destruct (_ <? 10); [simpl; lia|].
    destruct (_ <? 100); [simpl; lia|].
    destruct (Z.ltb_spec
                (1000 * digit_val y1 + 100 * digit_val y2
                 + 10 * digit_val y3 + digit_val y4) 1000);
      [simpl; lia|lia].
Qed.

Lemma parse_format_roundtrip_witness :
  (strftime false (make 2017 4 29) = "2017-04-29"
   /\ forall who country,
        startDate (construct false (make 2017 4 29, who) country)
        = "2017-04-29")
  /\ (strftime false (make 999 1 1) <> "0999-01-01"
      /\ (String.length (strftime false (make 999 1 1))
          < String.length "0999-01-01")%nat
      /\ forall who country,
           startDate (construct false (make 999 1 1, who) country)
           <> "0999-01-01").
Proof.
  split.
  - apply (proj1 (parse_format_roundtrip false "2017-04-29" (make 2017 4 29)
                    eq_refl eq_refl)).
    right. simpl. lia.
  - apply (proj2 (parse_format_roundtrip false "0999-01-01" (make 999 1 1)
                    eq_refl eq_refl)).
    + reflexivity.
    + simpl. lia.
Defined.

(** ** Further properties of the code *)

(** *** [map_invitees] *)

Module Import GroupingFacts.

Lemma country_getitem_raises (m : country_dict) (k : string) (e : exn) :
  country_getitem m k = Raise e -> e = KeyError.
Proof.
  induction m as [|[k' v'] m IH]; simpl; [congruence|].
  destruct (String.eqb k k'); [discriminate|exact IH].
Qed.

Lemma country_contains_false (m : country_dict) (k : string) :
  country_contains m k = false -> country_getitem m k = Raise KeyError.
Proof.
  induction m as [|[k' v'] m IH]; simpl; [reflexivity|].
  destruct (String.eqb k k'); simpl; [discriminate|exact IH].
Qed.

Lemma country_contains_true (m : country_dict) (k : string) :
  country_contains m k = true -> exists v, country_getitem m k = Ok v.
Proof.
  induction m as [|[k' v'] m IH]; simpl; [discriminate|].
  destruct (String.eqb k k'); simpl; eauto.
Qed.

Lemma country_contains_keys (m : country_dict) (k : string) :
  country_contains m k = true <-> In k (map fst m).
Proof.
  unfold country_contains. rewrite existsb_exists. split.
  - intros ([k' v'] & Hin & E). apply String.eqb_eq in E. subst.
    change k' with (fst (k', v')). now apply in_map.
  - intros H. apply in_map_iff in H. destruct H as (e & <- & Hin).
    exists e. split; [exact Hin|apply String.eqb_refl].
Qed.

Lemma country_append_same (m : country_dict) (k : string) (x : partner)
  (v : list partner) :
  country_getitem m k = Ok v ->
  country_getitem (country_append m k x) k = Ok (v ++ [x]).
Proof.
  induction m as [|[k' v'] m IH]; simpl; [discriminate|].
  destruct (String.eqb k k') eqn:E; simpl; rewrite E.
  - intros H. now injection H as ->.
  - exact IH.
Qed.

Lemma country_append_other (m : country_dict) (d k : string) (x : partner) :
  k <> d -> country_getitem (country_append m d x) k = country_getitem m k.
Proof.
  intros N. induction m as [|[k' v'] m IH]; simpl; [reflexivity|].
  destruct (String.eqb d k') eqn:E; simpl.
  - apply String.eqb_eq in E. subst k'.
    apply String.eqb_neq in N. now rewrite N.
  - destruct (String.eqb k k'); [reflexivity|exact IH].
Qed.

Lemma country_insert_getitem (m : country_dict) (d k : string)
  (v : list partner) :
  country_getitem (country_insert m d v) k
  = match country_getitem m k with
    | Ok w => Ok w
    | Raise _ => if String.eqb k d then Ok v else Raise KeyError
    end.
Proof.
  unfold country_insert.
  induction m as [|[k' v'] m IH]; simpl; [reflexivity|].
  destruct (String.eqb k k'); [reflexivity|exact IH].
Qed.

Lemma country_append_key_list (m : country_dict) (k : string) (x : partner) :
  map fst (country_append m k x) = map fst m.
Proof.
  induction m as [|[k' v'] m IH]; simpl; [reflexivity|].
  destruct (String.eqb k k'); simpl; [reflexivity|now rewrite IH].
Qed.

(** Filing a partner changes the entry of its own country only. *)
Lemma map_invitee_getitem (m : country_dict) (p : partner) (c : string) :
  country_getitem (map_invitee m p) c
  = if from_country c p then Ok (group_of m c ++ [p])
    else country_getitem m c.
Proof.
  unfold map_invitee, from_country, group_of.
  destruct (String.eqb (country p) c) eqn:E.
  - apply String.eqb_eq in E. subst c.
    destruct (country_contains m (country p)) eqn:C.
    + destruct (country_contains_true _ _ C) as [v G].
      now rewrite (country_append_same _ _ p _ G), G.
    + rewrite country_insert_getitem, (country_contains_false _ _ C).
      now rewrite String.eqb_refl.
  - apply String.eqb_neq in E.
    destruct (country_contains m (country p)).
    + apply country_append_other. congruence.
    + rewrite country_insert_getitem.
      assert (N : String.eqb c (country p) = false)
        by (apply String.eqb_neq; congruence).
      rewrite N. destruct (country_getitem m c) as [w|e] eqn:G;
        [reflexivity|].
      now rewrite (country_getitem_raises _ _ _ G).
Qed.

Lemma map_invitees_from (ps : list partner) (m : country_dict) (c : string) :
  country_getitem (fold_left map_invitee ps m) c
  = match filter (from_country c) ps with
    | [] => country_getitem m c
    | _ :: _ => Ok (group_of m c ++ filter (from_country c) ps)
    end.
Proof.
  revert m. induction ps as [|p ps IH]; intros m; simpl; [reflexivity|].
  rewrite IH. unfold group_of at 1. rewrite map_invitee_getitem.
  destruct (from_country c p); simpl.
  - rewrite <- app_assoc. simpl.
    destruct (filter (from_country c) ps); reflexivity.
  - reflexivity.
Qed.

Lemma map_invitee_keys (m : country_dict) (p : partner) :
  map fst (map_invitee m p)
  = if country_contains m (country p) then map fst m
    else map fst m ++ [country p].
Proof.
  unfold map_invitee. destruct (country_contains m (country p)).
  - apply country_append_key_list.
  - unfold country_insert. now rewrite map_app.
Qed.

Lemma nodup_snoc (l : list string) (c : string) :
  rev (nodup string_dec (rev (l ++ [c])))
  = if in_dec string_dec c l
    then rev (nodup string_dec (rev l))
    else rev (nodup string_dec (rev l)) ++ [c].
Proof.
  rewrite rev_app_distr. simpl.
  destruct (in_dec string_dec c (rev l)) as [H|H];
    destruct (in_dec string_dec c l) as [H'|H']; try reflexivity.
  - destruct H'. now apply in_rev.
  - destruct H. now apply in_rev in H'.
Qed.

Lemma first_seen_In (l : list string) (c : string) :
  In c (rev (nodup string_dec (rev l))) <-> In c l.
Proof. now rewrite <- in_rev, nodup_In, <- in_rev. Qed.

(** The keys after filing [ps], starting from no keys: the countries of
    [ps], each once, by first appearance. *)
Lemma map_invitees_key_list (ps : list partner) :
  map fst (fold_left map_invitee ps [])
  = rev (nodup string_dec (rev (map country ps))).
Proof.
  induction ps as [|p ps IH] using rev_ind; [reflexivity|].
  rewrite fold_left_app. simpl. rewrite map_invitee_keys, map_app. simpl.
  rewrite nodup_snoc, <- IH.
  destruct (country_contains (fold_left map_invitee ps []) (country p)) eqn:C;
    destruct (in_dec string_dec (country p) (map country ps)) as [H|H];
    try reflexivity; exfalso.
  - apply country_contains_keys in C. rewrite IH in C.
    apply (proj1 (first_seen_In _ _)) in C. contradiction.
  - assert (K : In (country p) (map fst (fold_left map_invitee ps [])))
      by (rewrite IH; now apply (proj2 (first_seen_In _ _))).
    apply country_contains_keys in K. congruence.
Qed.

Lemma concat_append (m : country_dict) (k : string) (x : partner) :
  country_contains m k = true ->
  Permutation (List.concat (map snd (country_append m k x)))
              (x :: List.concat (map snd m)).
Proof.
  induction m as [|[k' v'] m IH]; simpl; [discriminate|].
  destruct (String.eqb k k'); simpl.
  - intros _. rewrite <- app_assoc. simpl.
    apply Permutation_sym, Permutation_middle.
  - intros C. rewrite (IH C).
    apply Permutation_sym, Permutation_middle.
Qed.

Lemma concat_map_invitee (m : country_dict) (p : partner) :
  Permutation (List.concat (map snd (map_invitee m p)))
              (p :: List.concat (map snd m)).
Proof.
  unfold map_invitee. destruct (country_contains m (country p)) eqn:C.
  - now apply concat_append.
  - unfold country_insert. rewrite map_app, List.concat_app. simpl.
    apply Permutation_sym, Permutation_cons_append.
Qed.

End GroupingFacts.

(** *** The attendee lists and the selection of [organize_event] *)

Module Import SelectionFacts.

Lemma record_date_emails (who : string) (m : dict) (d k : datetime) :
  emails_in (record_date who m d) k
  = emails_in m k ++ (if eq_dec d k then [who] else []).
Proof.
  unfold record_date, emails_in.
  destruct (eq_dec d k) as [<-|N].
  - destruct (dict_contains m d) eqn:C.
    + destruct (contains_true_getitem _ _ C) as [v G].
      now rewrite (getitem_append_same _ _ who _ G), G.
    + rewrite getitem_insert, (contains_false_getitem _ _ C), eqb_refl.
      reflexivity.
  - rewrite app_nil_r. destruct (dict_contains m d).
    + rewrite getitem_append_other by congruence. reflexivity.
    + rewrite getitem_insert.
      assert (E : eqb k d = false) by (apply eqb_neq; congruence).
      rewrite E. now destruct (dict_getitem m k).
Qed.

Lemma record_dates_emails (who : string) (ds : list datetime) (m : dict)
  (k : datetime) :
  emails_in (fold_left (record_date who) ds m) k
  = emails_in m k ++ repeat who (count_occ eq_dec ds k).
Proof.
  revert m. induction ds as [|d ds IH]; intros m; simpl;
    [now rewrite app_nil_r|].
  rewrite IH, record_date_emails, <- app_assoc.
  destruct (eq_dec d k); reflexivity.
Qed.

Lemma aggregate_from_emails (l : list attendee) (m0 m : dict)
  (k : datetime) :
  for_each l
    (fun a valid_date_mapping =>
       valid_dates <- get_valid_dates (availableDates a) ;;
       Ok (fold_left (record_date (email a)) valid_dates valid_date_mapping))
    m0 = Ok m ->
  emails_in m k
  = emails_in m0 k
    ++ flat_map
         (fun a => repeat (email a) (count_occ eq_dec (windows_of a) k)) l.
Proof.
  revert m0. induction l as [|a l IH]; simpl; intros m0 H.
  - injection H as <-. now rewrite app_nil_r.
  - destruct (get_valid_dates (availableDates a)) as [r|e] eqn:G;
      simpl in H; [|discriminate].
    rewrite (IH _ H), record_dates_emails, <- app_assoc.
    unfold windows_of at 2. now rewrite G.
Qed.

Lemma select_getitem (m : dict) (d : datetime) (who : list string) :
  select m = Ok (d, who) -> dict_getitem m d = Ok who.
Proof.
  unfold select. destruct (snd (scan m)) as [ret|]; [|discriminate].
  destruct (dict_getitem m ret) as [v|e] eqn:G; simpl; [|discriminate].
  intros H. now injection H as <- <-.
Qed.

Lemma repeat_once (e : string) (ws : list datetime) (d : datetime) :
  NoDup ws ->
  repeat e (count_occ eq_dec ws d) = if mem d ws then [e] else [].
Proof.
  intros N. destruct (mem d ws) eqn:M.
  - apply mem_In in M.
    pose proof (proj1 (NoDup_count_occ' eq_dec ws) N d M) as ->.
    reflexivity.
  - assert (~ In d ws) as H by (rewrite <- mem_In; congruence).
    apply (count_occ_not_In eq_dec) in H. now rewrite H.
Qed.

(** Where the count first reaches its final value. *)
Lemma scan_first (m : dict) (highest highest' : nat)
  (ret ret' : option datetime) :
  fold_left scan_step m (highest, ret) = (highest', ret') ->
  (highest < highest')%nat ->
  exists before k v after,
    m = before ++ (k, v) :: after
    /\ ret' = Some k /\ List.length v = highest'
    /\ (forall e, In e before -> (List.length (snd e) < highest')%nat)
    /\ (forall e, In e after -> (List.length (snd e) <= highest')%nat).
Proof.
  revert highest ret. induction m as [|[k v] m IH]; simpl; intros h r H L.
  - injection H as <- <-. lia.
  - destruct (Nat.ltb_spec h (List.length v)) as [Lv|Lv].
    + pose proof (scan_result _ _ _ _ _ H) as (_ & B & [[-> ->]|[G _]]).
      * exists [], k, v, m. repeat split; auto. intros e [].
      * destruct (IH _ _ H G) as (bf & k' & v' & af & -> & -> & E & Hb & Ha).
        exists ((k, v) :: bf), k', v', af. repeat split; auto.
        intros e [<-|He]; simpl; [lia|auto].
    + destruct (IH _ _ H L) as (bf & k' & v' & af & -> & -> & E & Hb & Ha).
      exists ((k, v) :: bf), k', v', af. repeat split; auto.
      intros e [<-|He]; simpl; [lia|auto].
Qed.

Lemma select_decompose (m : dict) (d : datetime) (who : list string) :
  NoDup (map fst m) ->
  select m = Ok (d, who) ->
  exists before after,
    m = before ++ (d, who) :: after
    /\ who <> []
    /\ (forall e, In e before ->
          (List.length (snd e) < List.length who)%nat)
    /\ (forall e, In e after ->
          (List.length (snd e) <= List.length who)%nat).
Proof.
  intros N S. pose proof (select_getitem _ _ _ S) as G.
  unfold select, scan in S.
  destruct (fold_left scan_step m (0%nat, None)) as [h r] eqn:F.
  simpl in S. destruct r as [ret|]; [|discriminate].
  destruct (dict_getitem m ret) as [w|e]; simpl in S; [|discriminate].
  injection S as -> ->.
  assert (P : (0 < h)%nat).
  { destruct (scan_result _ _ _ _ _ F) as (_ & _ & [[_ E]|[P _]]);
      [discriminate|exact P]. }
  destruct (scan_first _ _ _ _ _ F P)
    as (bf & k & v & af & -> & E & L & Hb & Ha).
  injection E as <-.
  assert (In (d, v) (bf ++ (d, v) :: af)) as Hin
    by (apply in_or_app; right; now left).
  rewrite (getitem_In _ _ _ N Hin) in G. injection G as <-.
  exists bf, af. repeat split; try (rewrite L; assumption).
  intros ->. simpl in L. lia.
Qed.

(** Exactly which entry the selection returns. *)
Lemma select_iff (m : dict) (d : datetime) (who : list string) :
  NoDup (map fst m) ->
  select m = Ok (d, who) <->
  exists before after,
    m = before ++ (d, who) :: after
    /\ who <> []
    /\ (forall e, In e before ->
          (List.length (snd e) < List.length who)%nat)
    /\ (forall e, In e after ->
          (List.length (snd e) <= List.length who)%nat).
Proof.
  intros N. split; [now apply select_decompose|].
  intros (bf & af & -> & Hw & Hb & Ha).
  apply select_first_maximum; try assumption.
  intros [v Hv]. rewrite map_app in N. simpl in N.
  apply NoDup_remove_2 in N. apply N, in_or_app. left.
  change d with (fst (d, v)). now apply in_map.
Qed.

Lemma sorted_after (R : datetime -> datetime -> Prop)
  (l1 l2 : list datetime) (x : datetime) :
  StronglySorted R (l1 ++ x :: l2) -> Forall (R x) l2.
Proof.
  induction l1 as [|a l1 IH]; simpl; intros H;
    apply StronglySorted_inv in H; destruct H as [H1 H2]; auto.
Qed.

Lemma sorted_before (R : datetime -> datetime -> Prop)
  (l1 l2 : list datetime) (x : datetime) :
  StronglySorted R (l1 ++ x :: l2) -> Forall (fun y => R y x) l1.
Proof.
  induction l1 as [|a l1 IH]; simpl; intros H; [constructor|].
  apply StronglySorted_inv in H. destruct H as [H1 H2].
  constructor; [|now apply IH].
  rewrite Forall_forall in H2. apply H2, in_or_app. right. now left.
Qed.

Lemma lt_sorted_nodup (l : list datetime) : StronglySorted lt l -> NoDup l.
Proof.
  induction 1 as [|a l S IH F]; constructor; [|exact IH].
  intros Hin. rewrite Forall_forall in F. specialize (F _ Hin).
  unfold lt in F. apply ltb_iff in F. lia.
Qed.

(** Fresh keys recorded one after the other are appended in that order. *)
Lemma record_fresh_dates (who : string) (ds : list datetime) (m : dict) :
  NoDup ds ->
  (forall k, In k ds -> ~ In k (map fst m)) ->
  fold_left (record_date who) ds m = m ++ map (fun k => (k, [who])) ds.
Proof.
  revert m. induction ds as [|d ds IH]; intros m N F; simpl;
    [now rewrite app_nil_r|].
  inversion N as [|? ? Hd N']. subst.
  assert (C : dict_contains m d = false).
  { destruct (dict_contains m d) eqn:C; [|reflexivity].
    destruct (contains_true_getitem _ _ C) as [v G].
    exfalso. apply (F d (or_introl eq_refl)).
    clear - G. induction m as [|[k' v'] m IH]; simpl in *; [discriminate|].
    destruct (eqb d k') eqn:E; [left; symmetry; now apply eqb_eq|].
    right. now apply IH. }
  unfold record_date at 2. rewrite C. unfold dict_insert.
  rewrite IH; [now rewrite <- app_assoc|exact N'|].
  intros k Hk. rewrite map_app. simpl. intros Hin.
  apply in_app_or in Hin. destruct Hin as [Hin|[<-|[]]].
  - apply (F k); [now right|exact Hin].
  - contradiction.
Qed.

End SelectionFacts.

(** *** More on [get_valid_dates] *)

Module Import ExtractorMore.

(** Two sorted lists with the same elements are the same list. *)
Lemma sorted_perm_eq (l1 l2 : list datetime) :
  StronglySorted le l1 -> StronglySorted le l2 ->
  Permutation l1 l2 -> l1 = l2.
Proof.
  revert l2. induction l1 as [|a l1 IH]; intros l2 S1 S2 P.
  - apply Permutation_nil in P. now subst.
  - destruct l2 as [|b l2];
      [apply Permutation_sym, Permutation_nil in P; discriminate|].
    apply StronglySorted_inv in S1. destruct S1 as [S1 F1].
    apply StronglySorted_inv in S2. destruct S2 as [S2 F2].
    rewrite Forall_forall in F1, F2.
    assert (a = b) as <-.
    { assert (Ha : In a (b :: l2))
        by (apply (Permutation_in _ P); now left).
      assert (Hb : In b (a :: l1))
        by (apply (Permutation_in _ (Permutation_sym P)); now left).
      destruct Ha as [->|Ha]; [reflexivity|].
      destruct Hb as [->|Hb]; [reflexivity|].
      apply leb_antisym; [apply (F1 _ Hb)|apply (F2 _ Ha)]. }
    f_equal. apply IH; try assumption.
    now apply Permutation_cons_inv in P.
Qed.

Lemma sort_perm_eq (l1 l2 : list datetime) :
  Permutation l1 l2 -> sort l1 = sort l2.
Proof.
  intros P. apply sorted_perm_eq; try apply sort_sorted.
  eapply Permutation_trans; [apply Permutation_sym, sort_perm|].
  eapply Permutation_trans; [exact P|apply sort_perm].
Qed.

Lemma map_raise_perm {A B : Type} (f : A -> result B) (l l' : list A) :
  Permutation l l' ->
  forall ys, map_raise f l = Ok ys ->
  exists ys', map_raise f l' = Ok ys' /\ Permutation ys ys'.
Proof.
  induction 1 as [|x l l' P IH|x y l|l l' l'' P1 IH1 P2 IH2]; intros ys H.
  - exists ys. split; [exact H|apply Permutation_refl].
  - simpl in *. destruct (f x) as [b|e]; simpl in *; [|discriminate].
    destruct (map_raise f l) as [bs|e] eqn:M; simpl in *; [|discriminate].
    injection H as <-. destruct (IH _ eq_refl) as (bs' & -> & Pb).
    simpl. exists (b :: bs'). split; [reflexivity|now constructor].
  - simpl in *. destruct (f y) as [b|e]; simpl in *; [|discriminate].
    destruct (f x) as [c|e]; simpl in *; [|discriminate].
    destruct (map_raise f l) as [bs|e]; simpl in *; [|discriminate].
    injection H as <-. exists (c :: b :: bs). split; [reflexivity|].
    apply perm_swap.
  - destruct (IH1 _ H) as (ys1 & H1 & Q1).
    destruct (IH2 _ H1) as (ys2 & H2 & Q2).
    exists ys2. split; [exact H2|].
    eapply Permutation_trans; eassumption.
Qed.

(** A 9999-12-31 listed twice is reached by the scan. *)
Lemma scan_overflows (l : list string) (dates : list datetime) :
  map_raise strptime l = Ok dates ->
  (2 <= count_occ eq_dec dates max_date)%nat ->
  get_valid_dates l = Raise OverflowError.
Proof.
  intros P C. rewrite (get_valid_dates_eq _ _ P).
  assert (K : count_occ eq_dec (sort dates) max_date
              = count_occ eq_dec dates max_date).
  { symmetry.
    apply (proj1 (Permutation_count_occ eq_dec _ _) (sort_perm dates)). }
  destruct (sort dates) as [|a l'] eqn:S; [simpl in K; lia|].
  destruct (removelast_snoc (a :: l')) as [m Em]; [discriminate|].
  revert Em. generalize (removelast (a :: l')). intros xs Em.
  rewrite Em, count_occ_app in K. simpl in K.
  assert (Hx : In max_date xs).
  { apply (count_occ_In eq_dec). destruct (eq_dec m max_date); lia. }
  destruct (forallb can_add xs) eqn:A; [|reflexivity].
  rewrite forallb_forall in A. specialize (A _ Hx). discriminate.
Qed.

End ExtractorMore.

(** *** Formatting, then parsing *)

Module Import FormatParse.

Lemma digit_char_digit (n : Z) :
  0 <= n <= 9 ->
  is_digit (digit_char n) = true /\ digit_val (digit_char n) = n.
Proof.
  intros H.
  rewrite <- (Z2Nat.id n) by lia.
  assert (Z.to_nat n < 10)%nat as B by lia.
  revert B. generalize (Z.to_nat n). intros k B.
  do 10 (destruct k as [|k]; [split; reflexivity|]).
  lia.
Qed.

(** [strptime] reads back what [strftime] printed with four year digits. *)
Lemma strptime_pad4 (x : t) :
  valid x = true ->
  strptime
    (pad4 (year x)
       (String "-" (pad2 (month x) (String "-" (pad2 (day x) EmptyString)))))
  = Ok x.
Proof.
  intros V. pose proof V as W. apply valid_iff in W.
  destruct x as [y m d]. cbn [year month day] in *.
  pose proof (days_in_month_le y m) as Dm.
  unfold pad4, pad2.
  destruct (digit_char_digit (y / 1000 mod 10)) as [D1 V1];
    [Z.div_mod_to_equations; lia|].
  destruct (digit_char_digit (y / 100 mod 10)) as [D2 V2];
    [Z.div_mod_to_equations; lia|].
  destruct (digit_char_digit (y / 10 mod 10)) as [D3 V3];
    [Z.div_mod_to_equations; lia|].
  destruct (digit_char_digit (y mod 10)) as [D4 V4];
    [Z.div_mod_to_equations; lia|].
  destruct (digit_char_digit (m / 10 mod 10)) as [D5 V5];
    [Z.div_mod_to_equations; lia|].
  destruct (digit_char_digit (m mod 10)) as [D6 V6];
    [Z.div_mod_to_equations; lia|].
  destruct (digit_char_digit (d / 10 mod 10)) as [D7 V7];
    [Z.div_mod_to_equations; lia|].
  destruct (digit_char_digit (d mod 10)) as [D8 V8];
    [Z.div_mod_to_equations; lia|].
  unfold strptime, regex_match, match_Y.
  rewrite D1, D2, D3, D4. cbn [andb].
  rewrite match_hyphen_hyphen, month_two_digits by assumption.
  rewrite V1, V2, V3, V4, V5, V6.
  replace (10 * (m / 10 mod 10) + m mod 10) with m
    by (Z.div_mod_to_equations; lia).
  replace (1000 * (y / 1000 mod 10) + 100 * (y / 100 mod 10)
           + 10 * (y / 10 mod 10) + y mod 10) with y
    by (Z.div_mod_to_equations; lia).
  replace ((1 <=? m) && (m <=? 12)) with true
    by (symmetry; apply andb_true_iff; split; apply Z.leb_le; lia).
  rewrite day_two_digits by assumption.
  rewrite V7, V8.
  replace (10 * (d / 10 mod 10) + d mod 10) with d
    by (Z.div_mod_to_equations; lia).
  replace ((1 <=? d) && (d <=? 31)) with true
    by (symmetry; apply andb_true_iff; split; apply Z.leb_le; lia).
  unfold valid in V. cbn [year month day] in V. now rewrite V.
Qed.

Lemma iso_form_pad4 (y m d : Z) :
  0 <= y <= 9999 -> 0 <= m <= 99 -> 0 <= d <= 99 ->
  iso_form
    (pad4 y (String "-" (pad2 m (String "-" (pad2 d EmptyString)))))
  = true.
Proof.
  intros Hy Hm Hd. unfold pad4, pad2, iso_form.
  destruct (digit_char_digit (y / 1000 mod 10)) as [-> _];
    [Z.div_mod_to_equations; lia|].
  destruct (digit_char_digit (y / 100 mod 10)) as [-> _];
    [Z.div_mod_to_equations; lia|].
  destruct (digit_char_digit (y / 10 mod 10)) as [-> _];
    [Z.div_mod_to_equations; lia|].
  destruct (digit_char_digit (y mod 10)) as [-> _];
    [Z.div_mod_to_equations; lia|].
  destruct (digit_char_digit (m / 10 mod 10)) as [-> _];
    [Z.div_mod_to_equations; lia|].
  destruct (digit_char_digit (m mod 10)) as [-> _];
    [Z.div_mod_to_equations; lia|].
  destruct (digit_char_digit (d / 10 mod 10)) as [-> _];
    [Z.div_mod_to_equations; lia|].
  destruct (digit_char_digit (d mod 10)) as [-> _];
    [Z.div_mod_to_equations; lia|].
  reflexivity.
Qed.

End FormatParse.

(** *** The driver's loop *)

Module Import DriverFacts.

Lemma countries_loop (zero_pad_year : bool) (m : country_dict)
  (cs : list string) (acc : list country_record) :
  for_each cs
    (fun country countries =>
       group <- country_getitem m country ;;
       event <- organize_event (map invitee group) ;;
       Ok (countries ++ [construct zero_pad_year event country]))
    acc
  = rs <- map_raise (country_record_of zero_pad_year m) cs ;; Ok (acc ++ rs).
Proof.
  revert acc. induction cs as [|c cs IH]; intros acc; simpl.
  - now rewrite app_nil_r.
  - unfold country_record_of at 1.
    destruct (country_getitem m c) as [g|e]; simpl; [|reflexivity].
    destruct (organize_event (map invitee g)) as [ev|e]; simpl;
      [|reflexivity].
    rewrite IH.
    destruct (map_raise (country_record_of zero_pad_year m) cs); simpl;
      [|reflexivity].
    now rewrite <- app_assoc.
Qed.

Lemma countries_of_eq (zero_pad_year : bool) (body : response) :
  countries_of zero_pad_year body
  = map_raise (country_record_of zero_pad_year (map_invitees body))
      (map fst (map_invitees body)).
Proof.
  unfold countries_of. rewrite countries_loop.
  now destruct (map_raise _ _).
Qed.

Lemma country_getitem_In (m : country_dict) (k : string)
  (v : list partner) :
  NoDup (map fst m) -> In (k, v) m -> country_getitem m k = Ok v.
Proof.
  induction m as [|[k' v'] m IH]; simpl; [contradiction|].
  intros N [E|Hin].
  - injection E as -> ->. now rewrite String.eqb_refl.
  - inversion N as [|? ? Hk N']. subst.
    destruct (String.eqb k k') eqn:E.
    + apply String.eqb_eq in E. subst k'. destruct Hk.
      change k with (fst (k, v)). now apply in_map.
    + now apply IH.
Qed.

Lemma map_invitees_concat (ps : list partner) (m : country_dict) :
  Permutation (List.concat (map snd (fold_left map_invitee ps m)))
              (List.concat (map snd m) ++ ps).
Proof.
  revert m. induction ps as [|p ps IH]; intros m; simpl.
  - now rewrite app_nil_r.
  - eapply Permutation_trans; [apply IH|].
    eapply Permutation_trans;
      [apply Permutation_app_tail, concat_map_invitee|].
    simpl. apply Permutation_middle.
Qed.

End DriverFacts.

(** X1.  [map_invitees] files every partner under its country and keeps
    the input order inside a country: looking up a country gives exactly
    the partners of that country, in the order of the response, and raises
    [KeyError] when there is none. *)
Theorem map_invitees_groups (res : response) (c : string) :
  country_getitem (map_invitees res) c
  = match filter (from_country c) (partners res) with
    | [] => Raise KeyError
    | p :: ps => Ok (p :: ps)
    end.
Proof.
  unfold map_invitees. rewrite map_invitees_from. simpl.
  now destruct (filter (from_country c) (partners res)).
Qed.

(** X2.  The keys of [map_invitees] are the countries of the partners,
    each once, in the order in which they first appear in the response. *)
Theorem map_invitees_keys (res : response) :
  map fst (map_invitees res)
    = rev (nodup string_dec (rev (map country (partners res))))
  /\ NoDup (map fst (map_invitees res))
  /\ forall c,
       In c (map fst (map_invitees res)) <->
       exists p, In p (partners res) /\ country p = c.
Proof.
  unfold map_invitees. rewrite map_invitees_key_list.
  split; [reflexivity|split].
  - apply NoDup_rev, NoDup_nodup.
  - intros c. rewrite first_seen_In, in_map_iff. split.
    + intros (p & E & Hp). eauto.
    + intros (p & Hp & E). eauto.
Qed.

(** X3.  [map_invitees] loses and duplicates nobody: the groups together
    are a rearrangement of the partners of the response; no group is
    empty, and every member of a group has the group's country. *)
Theorem map_invitees_partition (res : response) :
  Permutation (List.concat (map snd (map_invitees res))) (partners res)
  /\ Forall
       (fun entry =>
          snd entry <> []
          /\ Forall (fun p => country p = fst entry) (snd entry))
       (map_invitees res).
Proof.
  split; [apply (map_invitees_concat (partners res) [])|].
  apply Forall_forall. intros [k v] Hin. simpl.
  assert (N : NoDup (map fst (map_invitees res))).
  { unfold map_invitees. rewrite map_invitees_key_list.
    apply NoDup_rev, NoDup_nodup. }
  pose proof (country_getitem_In _ _ _ N Hin) as G.
  unfold map_invitees in G. rewrite map_invitees_from in G. simpl in G.
  destruct (filter (from_country k) (partners res)) as [|p ps] eqn:F;
    [discriminate|].
  injection G as <-. split; [discriminate|].
  apply Forall_forall. intros q Hq. rewrite <- F in Hq.
  apply filter_In in Hq. destruct Hq as [_ Hq].
  now apply String.eqb_eq in Hq.
Qed.

(** X4.  The order of an attendee's [availableDates] does not matter to
    [get_valid_dates]: when every string parses, any rearrangement of the
    list gives the same outcome. *)
Theorem get_valid_dates_perm (l l' : list string) (dates : list datetime) :
  Permutation l l' ->
  map_raise strptime l = Ok dates ->
  get_valid_dates l' = get_valid_dates l.
Proof.
  intros P H. destruct (map_raise_perm strptime _ _ P _ H) as (dates' & H' & Q).
  rewrite (get_valid_dates_eq _ _ H), (get_valid_dates_eq _ _ H').
  now rewrite (sort_perm_eq _ _ Q).
Qed.

Lemma get_valid_dates_perm_witness :
  get_valid_dates ["2024-06-02"; "2024-06-09"; "2024-06-01"]
  = get_valid_dates ["2024-06-01"; "2024-06-02"; "2024-06-09"].
Proof.
  apply (get_valid_dates_perm
           ["2024-06-01"; "2024-06-02"; "2024-06-09"]
           ["2024-06-02"; "2024-06-09"; "2024-06-01"]
           [make 2024 6 1; make 2024 6 2; make 2024 6 9]).
  - apply (Permutation_cons_append ["2024-06-02"; "2024-06-09"] "2024-06-01").
  - reflexivity.
Defined.

(** X5.  On a list of strings that all parse, [get_valid_dates] raises
    exactly when 9999-12-31 is listed more than once, and what it raises
    then is the [OverflowError] of [date + timedelta(days=1)]; otherwise it
    returns a list. *)
Theorem get_valid_dates_overflow (l : list string) (dates : list datetime) :
  map_raise strptime l = Ok dates ->
  (get_valid_dates l = Raise OverflowError <->
   (2 <= count_occ eq_dec dates max_date)%nat)
  /\ ((exists r, get_valid_dates l = Ok r) <->
      (count_occ eq_dec dates max_date <= 1)%nat).
Proof.
  intros P. split; split.
  - intros H.
    destruct (Nat.le_gt_cases 2 (count_occ eq_dec dates max_date)) as [C|C];
      [exact C|].
    destruct (get_valid_dates_returns _ _ P) as [r Hr]; [lia|]. congruence.
  - now apply scan_overflows.
  - intros [r Hr].
    destruct (Nat.le_gt_cases (count_occ eq_dec dates max_date) 1) as [C|C];
      [exact C|].
    rewrite (scan_overflows _ _ P) in Hr by lia. discriminate.
  - now apply get_valid_dates_returns.
Qed.

Lemma get_valid_dates_overflow_witness :
  (get_valid_dates ["9999-12-31"; "9999-12-30"; "9999-12-31"]
   = Raise OverflowError <->
   (2 <= count_occ eq_dec
           [make 9999 12 31; make 9999 12 30; make 9999 12 31] max_date)%nat)
  /\ ((exists r,
         get_valid_dates ["9999-12-31"; "9999-12-30"; "9999-12-31"] = Ok r)
      <->
      (count_occ eq_dec
         [make 9999 12 31; make 9999 12 30; make 9999 12 31] max_date
       <= 1)%nat).
Proof.
  apply (get_valid_dates_overflow
           ["9999-12-31"; "9999-12-30"; "9999-12-31"]).
  reflexivity.
Defined.

(** X6.  The attendee list returned by [organize_event] is exactly the
    e-mail addresses of the attendees that have the returned date as a
    window start, in the order of the input, each as often as that date
    occurs among their window starts; when no attendee has a repeated
    window start, it is the addresses of those attendees, once each. *)
Theorem organize_event_attendees (l : list attendee) (d : datetime)
  (who : list string) :
  organize_event l = Ok (d, who) ->
  who = flat_map
          (fun a => repeat (email a) (count_occ eq_dec (windows_of a) d)) l
  /\ (Forall (fun a => NoDup (windows_of a)) l ->
      who = map email (filter (fun a => mem d (windows_of a)) l)).
Proof.
  unfold organize_event. intros H.
  destruct (aggregate l) as [m|e] eqn:A; simpl in H; [|discriminate].
  apply select_getitem in H.
  pose proof (aggregate_from_emails _ _ _ d A) as E.
  unfold emails_in in E. rewrite H in E. simpl in E.
  split; [exact E|].
  intros F. rewrite E. clear - F.
  induction F as [|a l N _ IH]; simpl; [reflexivity|].
  rewrite (repeat_once _ _ _ N), IH.
  now destruct (mem d (windows_of a)).
Qed.

Lemma organize_event_attendees_witness :
  ["a"; "c"]
  = flat_map
      (fun a =>
         repeat (email a) (count_occ eq_dec (windows_of a) (make 2024 6 1)))
      (map invitee (partners sample_body))
  /\ (Forall (fun a => NoDup (windows_of a))
        (map invitee (partners sample_body)) ->
      ["a"; "c"]
      = map email
          (filter (fun a => mem (make 2024 6 1) (windows_of a))
             (map invitee (partners sample_body)))).
Proof.
  apply (organize_event_attendees
           (map invitee (partners sample_body)) (make 2024 6 1) ["a"; "c"]).
  reflexivity.
Defined.

(** X7.  The date returned by [organize_event] has the greatest support of
    all dates: the length of the returned attendee list is the number of
    times the group offers the returned date as a window start, that
    number is positive, and no date is offered more often. *)
Theorem organize_event_maximum (l : list attendee) (d : datetime)
  (who : list string) :
  organize_event l = Ok (d, who) ->
  List.length who = support l d
  /\ (0 < support l d)%nat
  /\ forall k, (support l k <= support l d)%nat.
Proof.
  unfold organize_event. intros H.
  destruct (aggregate l) as [m|e] eqn:A; simpl in H; [|discriminate].
  pose proof (aggregate_nodup _ _ A) as N.
  destruct (select_decompose _ _ _ N H) as (bf & af & _ & Hw & _ & _).
  destruct (count_in_le_selected _ _ d _ N H) as [Ed _].
  rewrite (aggregate_count _ _ d A) in Ed.
  split; [now symmetry|split].
  - rewrite Ed. destruct who; [contradiction|simpl; lia].
  - intros k. destruct (count_in_le_selected _ _ k _ N H) as [_ Le].
    rewrite (aggregate_count _ _ k A) in Le. lia.
Qed.

Lemma organize_event_maximum_witness :
  List.length ["a"; "c"]
  = support (map invitee (partners sample_body)) (make 2024 6 1)
  /\ (0 < support (map invitee (partners sample_body)) (make 2024 6 1))%nat
  /\ forall k,
       (support (map invitee (partners sample_body)) k
        <= support (map invitee (partners sample_body)) (make 2024 6 1))%nat.
Proof.
  apply (organize_event_maximum
           (map invitee (partners sample_body)) (make 2024 6 1) ["a"; "c"]).
  reflexivity.
Defined.

(** X8.  Reordering the attendees never changes whether [organize_event]
    returns an event nor how many attendees the event has (it may change
    the date among tied dates). *)
Theorem organize_event_count_perm (l l' : list attendee) (d : datetime)
  (who : list string) :
  Permutation l l' ->
  organize_event l = Ok (d, who) ->
  exists d' who',
    organize_event l' = Ok (d', who')
    /\ List.length who' = List.length who.
Proof. apply selected_count_perm. Qed.

Lemma organize_event_count_perm_witness :
  exists d' who',
    organize_event [early "a"; early "b"; late "c"; late "d"] = Ok (d', who')
    /\ List.length who' = List.length ["c"; "d"].
Proof.
  apply (organize_event_count_perm
           [late "c"; late "d"; early "a"; early "b"]
           [early "a"; early "b"; late "c"; late "d"]
           may_03 ["c"; "d"]).
  - apply (Permutation_app_comm [late "c"; late "d"] [early "a"; early "b"]).
  - reflexivity.
Defined.

(** X9.  Which entry the selection loop returns, for a mapping without
    repeated keys: the entry returned is the first one, in iteration
    order, whose list is non-empty and at least as long as every other;
    every entry before it is strictly shorter. *)
Theorem select_first_with_maximum (m : dict) (d : datetime)
  (who : list string) :
  NoDup (map fst m) ->
  select m = Ok (d, who) <->
  exists before after,
    m = before ++ (d, who) :: after
    /\ who <> []
    /\ (forall e, In e before ->
          (List.length (snd e) < List.length who)%nat)
    /\ (forall e, In e after ->
          (List.length (snd e) <= List.length who)%nat).
Proof. apply select_iff. Qed.

Lemma select_first_with_maximum_witness :
  select [(may_03, ["c"; "d"]); (may_01, ["a"; "b"])]
    = Ok (may_03, ["c"; "d"]) <->
  exists before after,
    [(may_03, ["c"; "d"]); (may_01, ["a"; "b"])]
      = before ++ (may_03, ["c"; "d"]) :: after
    /\ ["c"; "d"] <> []
    /\ (forall e, In e before ->
          (List.length (snd e) < List.length ["c"; "d"])%nat)
    /\ (forall e, In e after ->
          (List.length (snd e) <= List.length ["c"; "d"])%nat).
Proof.
  apply (select_first_with_maximum
           [(may_03, ["c"; "d"]); (may_01, ["a"; "b"])] may_03 ["c"; "d"]).
  repeat constructor; simpl; intuition discriminate.
Defined.

(** X10.  When the keys of the mapping are in ascending order, the
    selection loop does what the docstring says: it returns an entry
    exactly when that entry is not empty, no entry has more attendees, and
    no entry with as many attendees has an earlier date. *)
Theorem select_earliest_when_keys_ascend (m : dict) (d : datetime)
  (who : list string) :
  StronglySorted lt (map fst m) ->
  select m = Ok (d, who) <->
  In (d, who) m
  /\ who <> []
  /\ (forall k v, In (k, v) m -> (List.length v <= List.length who)%nat)
  /\ (forall k v,
        In (k, v) m -> List.length v = List.length who -> le d k).
Proof.
  intros S. pose proof (lt_sorted_nodup _ S) as N.
  rewrite (select_iff _ _ _ N). split.
  - intros (bf & af & -> & Hw & Hb & Ha).
    rewrite map_app in S. simpl in S.
    split; [apply in_or_app; right; now left|].
    split; [exact Hw|split].
    + intros k v Hin. apply in_app_or in Hin.
      destruct Hin as [Hin|[E|Hin]].
      * specialize (Hb _ Hin). simpl in Hb. lia.
      * injection E as _ <-. lia.
      * exact (Ha _ Hin).
    + intros k v Hin L. apply in_app_or in Hin.
      destruct Hin as [Hin|[E|Hin]].
      * specialize (Hb _ Hin). simpl in Hb. lia.
      * injection E as <- _. unfold le. apply leb_iff. lia.
      * apply sorted_after in S. rewrite Forall_forall in S.
        assert (K : lt d k).
        { apply S. change k with (fst (k, v)). now apply in_map. }
        unfold lt in K. apply ltb_iff in K. unfold le. apply leb_iff. lia.
  - intros (Hin & Hw & Hmax & Hmin).
    destruct (in_split _ _ Hin) as (bf & af & ->).
    exists bf, af. split; [reflexivity|split; [exact Hw|split]].
    + intros [k v] He. simpl.
      assert (Hk : In (k, v) (bf ++ (d, who) :: af))
        by (apply in_or_app; now left).
      pose proof (Hmax _ _ Hk) as Le.
      destruct (Nat.eq_dec (List.length v) (List.length who)) as [Eq|Ne];
        [|lia].
      exfalso. pose proof (Hmin _ _ Hk Eq) as Ld.
      rewrite map_app in S. simpl in S. apply sorted_before in S.
      rewrite Forall_forall in S.
      assert (K : lt k d).
      { apply S. change k with (fst (k, v)). now apply in_map. }
      unfold lt in K. apply ltb_iff in K. unfold le in Ld.
      apply leb_iff in Ld. lia.
    + intros [k v] He. simpl. apply (Hmax k v).
      apply in_or_app. right. now right.
Qed.

Lemma select_earliest_when_keys_ascend_witness :
  select [(may_01, ["a"; "b"]); (may_03, ["c"; "d"])]
    = Ok (may_01, ["a"; "b"]) <->
  In (may_01, ["a"; "b"]) [(may_01, ["a"; "b"]); (may_03, ["c"; "d"])]
  /\ ["a"; "b"] <> []
  /\ (forall k v,
        In (k, v) [(may_01, ["a"; "b"]); (may_03, ["c"; "d"])] ->
        (List.length v <= List.length ["a"; "b"])%nat)
  /\ (forall k v,
        In (k, v) [(may_01, ["a"; "b"]); (may_03, ["c"; "d"])] ->
        List.length v = List.length ["a"; "b"] -> le may_01 k).
Proof.
  apply (select_earliest_when_keys_ascend
           [(may_01, ["a"; "b"]); (may_03, ["c"; "d"])] may_01 ["a"; "b"]).
  repeat constructor.
Defined.

(** *** Helpers for the remaining properties *)

Module Import PipelineFacts.

Lemma support_ge (l : list attendee) (a : attendee) (k : datetime) :
  In a l -> (count_occ eq_dec (windows_of a) k <= support l k)%nat.
Proof.
  unfold support. induction l as [|b l IH]; simpl; [contradiction|].
  intros [->|H]; [lia|]. specialize (IH H). lia.
Qed.

Lemma support_none (l : list attendee) (k : datetime) :
  Forall (fun a => windows_of a = []) l -> support l k = 0%nat.
Proof.
  unfold support. induction 1 as [|a l E _ IH]; simpl; [reflexivity|].
  now rewrite E, IH.
Qed.

Lemma select_nothing (m : dict) :
  NoDup (map fst m) ->
  (forall k, count_in m k = 0%nat) ->
  select m = Raise KeyError.
Proof.
  intros N Z. unfold select, scan.
  destruct (fold_left scan_step m (0%nat, None)) as [h r] eqn:F.
  destruct (scan_result _ _ _ _ _ F)
    as (_ & _ & [[_ ->]|(P & k & v & _ & Hin & L)]); [reflexivity|].
  exfalso. specialize (Z k). unfold count_in in Z.
  rewrite (getitem_In _ _ _ N Hin) in Z. lia.
Qed.

(** A date returned by [organize_event] was parsed from some string. *)
Lemma organize_event_valid (l : list attendee) (d : datetime)
  (who : list string) :
  organize_event l = Ok (d, who) -> valid d = true.
Proof.
  unfold organize_event. intros H.
  destruct (aggregate l) as [m|e] eqn:A; simpl in H; [|discriminate].
  apply select_key in H.
  destruct (aggregate_keys _ _ _ A H) as (a & r & _ & G & Hd).
  destruct (get_valid_dates_inv _ _ G) as (dates & P & _ & _).
  apply (get_valid_dates_In _ _ _ d P G) in Hd. destruct Hd as [Hd _].
  pose proof (parsed_valid _ _ P) as V. rewrite Forall_forall in V. auto.
Qed.

Lemma window_strings (a : attendee) (d : datetime) :
  In d (windows_of a) ->
  exists n s1 s2,
    In s1 (availableDates a) /\ strptime s1 = Ok d
    /\ add_day d = Ok n
    /\ In s2 (availableDates a) /\ strptime s2 = Ok n.
Proof.
  unfold windows_of.
  destruct (get_valid_dates (availableDates a)) as [r|e] eqn:G;
    [|contradiction].
  intros Hd. destruct (get_valid_dates_inv _ _ G) as (dates & P & _ & _).
  apply (get_valid_dates_In _ _ _ d P G) in Hd.
  destruct Hd as (Hd & n & E & Hn).
  destruct (parsed_In _ _ _ P Hd) as (s1 & Hs1 & E1).
  destruct (parsed_In _ _ _ P Hn) as (s2 & Hs2 & E2).
  exists n, s1, s2. repeat split; assumption.
Qed.

(** Every address in the returned list is that of an attendee who offers
    the returned date. *)
Lemma organize_event_member (l : list attendee) (d : datetime)
  (who : list string) (e : string) :
  organize_event l = Ok (d, who) ->
  In e who ->
  exists a, In a l /\ email a = e /\ In d (windows_of a).
Proof.
  unfold organize_event. intros H He.
  destruct (aggregate l) as [m|x] eqn:A; simpl in H; [|discriminate].
  apply select_getitem in H.
  pose proof (aggregate_from_emails _ _ _ d A) as E.
  unfold emails_in in E. rewrite H in E. simpl in E.
  rewrite E in He. apply in_flat_map in He.
  destruct He as (a & Ha & Hr). exists a.
  pose proof (repeat_spec _ _ _ Hr) as ->.
  repeat split; [exact Ha|].
  apply (count_occ_In eq_dec).
  destruct (count_occ eq_dec (windows_of a) d); [contradiction|lia].
Qed.

Lemma organize_event_nonempty (l : list attendee) (d : datetime)
  (who : list string) :
  organize_event l = Ok (d, who) -> who <> [].
Proof.
  unfold organize_event. intros H.
  destruct (aggregate l) as [m|e] eqn:A; simpl in H; [|discriminate].
  pose proof (aggregate_nodup _ _ A) as N.
  now destruct (select_decompose _ _ _ N H) as (_ & _ & _ & Hw & _).
Qed.

Lemma map_raise_stops {A B : Type} (f : A -> result B)
  (before after : list A) (x : A) (e : exn) :
  Forall (fun y => exists b, f y = Ok b) before ->
  f x = Raise e ->
  map_raise f (before ++ x :: after) = Raise e.
Proof.
  induction 1 as [|y l [b Hy] _ IH]; simpl; intros Hx.
  - now rewrite Hx.
  - rewrite Hy. simpl. now rewrite (IH Hx).
Qed.

(** The record of a country is built from [organize_event] on the partners
    of that country, in the order of the response. *)
Lemma country_record_of_eq (zero_pad_year : bool) (body : response)
  (c : string) :
  country_record_of zero_pad_year (map_invitees body) c
  = event <- organize_event
               (map invitee (filter (from_country c) (partners body))) ;;
    Ok (construct zero_pad_year event c).
Proof.
  unfold country_record_of, map_invitees. rewrite map_invitees_from. simpl.
  now destruct (filter (from_country c) (partners body)).
Qed.

End PipelineFacts.

(** X11.  For a single attendee without repeated window starts,
    [organize_event] returns the attendee's earliest window start and the
    attendee's address alone. *)
Theorem organize_event_single_attendee (a : attendee) (d : datetime)
  (rest : list datetime) :
  get_valid_dates (availableDates a) = Ok (d :: rest) ->
  NoDup (d :: rest) ->
  organize_event [a] = Ok (d, [email a])
  /\ Forall (le d) rest.
Proof.
  intros G N. split.
  - unfold organize_event, aggregate. simpl. rewrite G. simpl.
    change (fold_left (record_date (email a)) rest
              (record_date (email a) [] d))
      with (fold_left (record_date (email a)) (d :: rest) []).
    rewrite record_fresh_dates; [|exact N|intros k _ []].
    simpl.
    apply (select_first_maximum [] (map (fun k => (k, [email a])) rest)).
    + discriminate.
    + intros [v []].
    + intros e [].
    + intros e He. apply in_map_iff in He.
      destruct He as (k & <- & _). simpl. lia.
  - destruct (get_valid_dates_inv _ _ G) as (dates & P & _ & _).
    pose proof (get_valid_dates_filter _ _ _ P G) as E.
    assert (S : StronglySorted le (d :: rest)).
    { rewrite E. apply StronglySorted_filter, sort_sorted. }
    now apply StronglySorted_inv in S.
Qed.

Lemma organize_event_single_attendee_witness :
  organize_event
    [mk_attendee "c" ["2024-06-03"; "2024-06-01"; "2024-06-02"]]
  = Ok (make 2024 6 1,
        [email (mk_attendee "c" ["2024-06-03"; "2024-06-01"; "2024-06-02"])])
  /\ Forall (le (make 2024 6 1)) [make 2024 6 2].
Proof.
  apply (organize_event_single_attendee
           (mk_attendee "c" ["2024-06-03"; "2024-06-01"; "2024-06-02"])
           (make 2024 6 1) [make 2024 6 2]).
  - reflexivity.
  - repeat constructor; simpl; intuition discriminate.
Defined.

(** X12.  When [get_valid_dates] returns for every attendee,
    [organize_event] raises [KeyError] if no attendee has a window start,
    and returns an event if some attendee has one. *)
Theorem organize_event_outcome (l : list attendee) :
  Forall (fun a => exists r, get_valid_dates (availableDates a) = Ok r) l ->
  (Forall (fun a => windows_of a = []) l ->
   organize_event l = Raise KeyError)
  /\ (Exists (fun a => windows_of a <> []) l ->
      exists d who, organize_event l = Ok (d, who)).
Proof.
  intros F. apply aggregate_succeeds_iff in F. destruct F as [m A].
  pose proof (aggregate_nodup _ _ A) as N.
  unfold organize_event. rewrite A. simpl. split.
  - intros Z. apply select_nothing; [exact N|].
    intros k. rewrite (aggregate_count _ _ k A). now apply support_none.
  - intros E. apply Exists_exists in E. destruct E as (a & Ha & W).
    destruct (windows_of a) as [|k ws] eqn:Wa; [contradiction|].
    apply (select_succeeds m k).
    rewrite (aggregate_count _ _ k A).
    pose proof (support_ge l a k Ha) as S. rewrite Wa in S. simpl in S.
    destruct (eq_dec k k); [lia|contradiction].
Qed.

Lemma organize_event_outcome_witness :
  (Forall (fun a => windows_of a = [])
     [mk_attendee "a" ["2024-05-01"; "2024-05-03"];
      mk_attendee "b" ["2024-05-05"]] ->
   organize_event
     [mk_attendee "a" ["2024-05-01"; "2024-05-03"];
      mk_attendee "b" ["2024-05-05"]]
   = Raise KeyError)
  /\ (Exists (fun a => windows_of a <> [])
        [mk_attendee "a" ["2024-05-01"; "2024-05-03"];
         mk_attendee "b" ["2024-05-05"]] ->
      exists d who,
        organize_event
          [mk_attendee "a" ["2024-05-01"; "2024-05-03"];
           mk_attendee "b" ["2024-05-05"]]
        = Ok (d, who)).
Proof.
  apply (organize_event_outcome
           [mk_attendee "a" ["2024-05-01"; "2024-05-03"];
            mk_attendee "b" ["2024-05-05"]]).
  repeat constructor; eexists; reflexivity.
Defined.

(** X13.  Every address in the list returned by [organize_event] is the
    address of an attendee of the group whose [availableDates] hold both
    the returned date and the day after it. *)
Theorem organize_event_attendees_available (l : list attendee)
  (d : datetime) (who : list string) (e : string) :
  organize_event l = Ok (d, who) ->
  In e who ->
  exists a n s1 s2,
    In a l /\ email a = e
    /\ In s1 (availableDates a) /\ strptime s1 = Ok d
    /\ add_day d = Ok n
    /\ In s2 (availableDates a) /\ strptime s2 = Ok n.
Proof.
  intros H He.
  destruct (organize_event_member _ _ _ _ H He) as (a & Ha & Ea & W).
  destruct (window_strings _ _ W) as (n & s1 & s2 & K).
  exists a, n, s1, s2. tauto.
Qed.

Lemma organize_event_attendees_available_witness :
  exists a n s1 s2,
    In a (map invitee (partners sample_body)) /\ email a = "c"
    /\ In s1 (availableDates a) /\ strptime s1 = Ok (make 2024 6 1)
    /\ add_day (make 2024 6 1) = Ok n
    /\ In s2 (availableDates a) /\ strptime s2 = Ok n.
Proof.
  apply (organize_event_attendees_available
           (map invitee (partners sample_body)) (make 2024 6 1)
           ["a"; "c"] "c").
  - reflexivity.
  - simpl. auto.
Defined.

(** X14.  The [startDate] that [construct] prints for an event returned by
    [organize_event] has the form [YYYY-MM-DD] and parses back, with the
    format of [get_valid_dates], to the event's date, when the year is
    1000 or later or the platform pads [%Y] to four digits. *)
Theorem construct_start_date_parses (zero_pad_year : bool)
  (l : list attendee) (d : datetime) (who : list string) (c : string) :
  organize_event l = Ok (d, who) ->
  zero_pad_year = true \/ 1000 <= year d ->
  iso_form (startDate (construct zero_pad_year (d, who) c)) = true
  /\ strptime (startDate (construct zero_pad_year (d, who) c)) = Ok d.
Proof.
  intros H Y. pose proof (organize_event_valid _ _ _ H) as V.
  pose proof V as W. apply valid_iff in W.
  pose proof (days_in_month_le (year d) (month d)) as Dm.
  assert (E : startDate (construct zero_pad_year (d, who) c)
              = pad4 (year d)
                  (String "-" (pad2 (month d)
                     (String "-" (pad2 (day d) EmptyString))))).
  { simpl. unfold strftime. destruct zero_pad_year; [reflexivity|].
    destruct Y as [Y|Y]; [discriminate|].
    now rewrite unpadded_four_digits. }
  rewrite E. split.
  - apply iso_form_pad4; lia.
  - now apply strptime_pad4.
Qed.

Lemma construct_start_date_parses_witness :
  iso_form
    (startDate (construct false (make 2024 6 1, ["a"; "c"]) "Ireland"))
  = true
  /\ strptime
       (startDate (construct false (make 2024 6 1, ["a"; "c"]) "Ireland"))
     = Ok (make 2024 6 1).
Proof.
  apply (construct_start_date_parses false
           (map invitee (partners sample_body)) (make 2024 6 1)
           ["a"; "c"] "Ireland").
  - reflexivity.
  - right. simpl. lia.
Defined.

(** X15.  The driver's loop has no partial result: the first country, in
    the order of first appearance, for which [organize_event] raises makes
    the whole loop raise that exception; in particular a country none of
    whose partners has two consecutive days stops the run with
    [KeyError]. *)
Theorem countries_of_aborts (zero_pad_year : bool) (body : response)
  (before after : list string) (c : string) (e : exn) :
  map fst (map_invitees body) = before ++ c :: after ->
  Forall
    (fun c' =>
       exists event,
         organize_event
           (map invitee (filter (from_country c') (partners body)))
         = Ok event)
    before ->
  organize_event (map invitee (filter (from_country c) (partners body)))
  = Raise e ->
  countries_of zero_pad_year body = Raise e.
Proof.
  intros K F H. rewrite countries_of_eq, K.
  apply map_raise_stops.
  - eapply Forall_impl; [|exact F]. intros c' [event Hc].
    rewrite country_record_of_eq, Hc. simpl. eauto.
  - now rewrite country_record_of_eq, H.
Qed.

Lemma countries_of_aborts_witness :
  countries_of false
    (mk_response
       (partners sample_body
        ++ [mk_partner "France" (mk_attendee "d" ["2024-06-01"])]))
  = Raise KeyError.
Proof.
  apply (countries_of_aborts false
           (mk_response
              (partners sample_body
               ++ [mk_partner "France" (mk_attendee "d" ["2024-06-01"])]))
           ["Ireland"; "Spain"] [] "France" KeyError).
  - reflexivity.
  - repeat constructor; eexists; reflexivity.
  - reflexivity.
Defined.

(** X16.  When the driver's loop ends normally, it has built one record
    per country of the response, in the order in which the countries first
    appear, and every record counts at least one attendee. *)
Theorem countries_of_shape (zero_pad_year : bool) (body : response)
  (countries : list country_record) :
  countries_of zero_pad_year body = Ok countries ->
  map name countries
    = rev (nodup string_dec (rev (map country (partners body))))
  /\ Forall (fun r => (1 <= attendeeCount r)%nat) countries.
Proof.
  rewrite countries_of_eq. intros H. apply map_raise_Forall2 in H.
  unfold map_invitees in H at 2. rewrite map_invitees_key_list in H.
  revert H.
  generalize (rev (nodup string_dec (rev (map country (partners body))))).
  intros keys H.
  induction H as [|c r keys rs Hc _ [IH1 IH2]]; [split; constructor|].
  rewrite country_record_of_eq in Hc.
  destruct (organize_event
              (map invitee (filter (from_country c) (partners body))))
    as [[d who]|e] eqn:O; simpl in Hc; [|discriminate].
  injection Hc as <-. simpl. split; [now rewrite IH1|].
  constructor; [|exact IH2]. simpl.
  pose proof (organize_event_nonempty _ _ _ O).
  destruct who; [contradiction|simpl; lia].
Qed.

Lemma countries_of_shape_witness :
  map name
    [construct false (make 2024 6 1, ["a"; "c"]) "Ireland";
     construct false (make 2024 6 2, ["b"]) "Spain"]
    = rev (nodup string_dec (rev (map country (partners sample_body))))
  /\ Forall (fun r => (1 <= attendeeCount r)%nat)
       [construct false (make 2024 6 1, ["a"; "c"]) "Ireland";
        construct false (make 2024 6 2, ["b"]) "Spain"].
Proof.
  apply (countries_of_shape false sample_body).
  reflexivity.
Defined.

(** X17.  In every record the driver's loop builds, each listed attendee
    is the address of a partner of the record's own country, and that
    partner's [availableDates] hold both the date printed as [startDate]
    and the day after it. *)
Theorem countries_of_attendees (zero_pad_year : bool) (body : response)
  (countries : list country_record) (r : country_record) (e : string) :
  countries_of zero_pad_year body = Ok countries ->
  In r countries ->
  In e (attendees r) ->
  exists p d n s1 s2,
    In p (partners body)
    /\ country p = name r
    /\ email (invitee p) = e
    /\ startDate r = strftime zero_pad_year d
    /\ In s1 (availableDates (invitee p)) /\ strptime s1 = Ok d
    /\ add_day d = Ok n
    /\ In s2 (availableDates (invitee p)) /\ strptime s2 = Ok n.
Proof.
  rewrite countries_of_eq. intros H Hr He. apply map_raise_Forall2 in H.
  revert H. generalize (map fst (map_invitees body)). intros keys H.
  induction H as [|c r' keys rs Hc _ IH]; [contradiction|].
  destruct Hr as [->|Hr]; [|now apply IH].
  rewrite country_record_of_eq in Hc.
  destruct (organize_event
              (map invitee (filter (from_country c) (partners body))))
    as [[d who]|x] eqn:O; simpl in Hc; [|discriminate].
  injection Hc as <-. simpl in *.
  destruct (organize_event_member _ _ _ _ O He) as (a & Ha & Ea & W).
  apply in_map_iff in Ha. destruct Ha as (p & <- & Hp).
  apply filter_In in Hp. destruct Hp as [Hp Hc].
  apply String.eqb_eq in Hc.
  destruct (window_strings _ _ W) as (n & s1 & s2 & K).
  exists p, d, n, s1, s2. tauto.
Qed.

Lemma countries_of_attendees_witness :
  exists p d n s1 s2,
    In p (partners sample_body)
    /\ country p
       = name (construct false (make 2024 6 1, ["a"; "c"]) "Ireland")
    /\ email (invitee p) = "c"
    /\ startDate (construct false (make 2024 6 1, ["a"; "c"]) "Ireland")
       = strftime false d
    /\ In s1 (availableDates (invitee p)) /\ strptime s1 = Ok d
    /\ add_day d = Ok n
    /\ In s2 (availableDates (invitee p)) /\ strptime s2 = Ok n.
Proof.
  apply (countries_of_attendees false sample_body
           [construct false (make 2024 6 1, ["a"; "c"]) "Ireland";
            construct false (make 2024 6 2, ["b"]) "Spain"]).
  - reflexivity.
  - simpl. auto.
  - simpl. auto.
Defined.

Module Import AggregateMore.

Lemma dict_getitem_raises (m : dict) (k : datetime) (e : exn) :
  dict_getitem m k = Raise e -> e = KeyError.
Proof.
  induction m as [|[k' v'] m IH]; simpl; [congruence|].
  destruct (eqb k k'); [discriminate|exact IH].
Qed.

Lemma dict_append_nonempty (m : dict) (k : datetime) (x : string) :
  Forall (fun e => snd e <> []) m ->
  Forall (fun e => snd e <> []) (dict_append m k x).
Proof.
  induction 1 as [|[k' v'] m H F IH]; simpl; [constructor|].
  destruct (eqb k k'); constructor; simpl in *; try assumption.
  intros E. now apply app_eq_nil in E.
Qed.

Lemma record_dates_nonempty (who : string) (ds : list datetime) (m : dict) :
  Forall (fun e => snd e <> []) m ->
  Forall (fun e => snd e <> []) (fold_left (record_date who) ds m).
Proof.
  revert m. induction ds as [|d ds IH]; intros m F; simpl; [exact F|].
  apply IH. unfold record_date. destruct (dict_contains m d).
  - now apply dict_append_nonempty.
  - unfold dict_insert. apply Forall_app. split; [exact F|].
    repeat constructor. discriminate.
Qed.

Lemma aggregate_nonempty (l : list attendee) (m : dict) :
  aggregate l = Ok m -> Forall (fun e => snd e <> []) m.
Proof.
  unfold aggregate. intros H.
  eapply (for_each_preserves _ (fun m => Forall (fun e => snd e <> []) m));
    [| |exact H].
  - intros a s s' _ F B. simpl in B.
    destruct (get_valid_dates (availableDates a)); simpl in B;
      [|discriminate].
    injection B as <-. now apply record_dates_nonempty.
  - constructor.
Qed.

Lemma dict_getitem_entry (m : dict) (k : datetime) (v : list string) :
  dict_getitem m k = Ok v -> In (k, v) m.
Proof.
  induction m as [|[k' v'] m IH]; simpl; [discriminate|].
  destruct (eqb k k') eqn:E.
  - apply eqb_eq in E. subst k'. intros H. injection H as ->. now left.
  - intros H. right. now apply IH.
Qed.

End AggregateMore.

(** X18.  The mapping built by the first loop of [organize_event] has no
    repeated key, and under a date it holds exactly the addresses of the
    attendees that offer the date as a window start, in the order of the
    attendees, each as often as the date occurs among the attendee's
    window starts; a date nobody offers is not a key. *)
Theorem aggregate_entries (l : list attendee) (m : dict) (k : datetime) :
  aggregate l = Ok m ->
  NoDup (map fst m)
  /\ dict_getitem m k
     = match flat_map
               (fun a =>
                  repeat (email a) (count_occ eq_dec (windows_of a) k)) l
       with
       | [] => Raise KeyError
       | e :: es => Ok (e :: es)
       end.
Proof.
  intros A. split; [now apply (aggregate_nodup l)|].
  pose proof (aggregate_from_emails _ _ _ k A) as E.
  unfold emails_in in E. simpl in E.
  destruct (dict_getitem m k) as [v|x] eqn:G.
  - rewrite <- E.
    pose proof (aggregate_nonempty _ _ A) as F. rewrite Forall_forall in F.
    specialize (F _ (dict_getitem_entry _ _ _ G)). simpl in F.
    now destruct v.
  - rewrite <- E. now rewrite (dict_getitem_raises _ _ _ G).
Qed.

Lemma aggregate_entries_witness :
  NoDup (map fst [(make 2024 6 1, ["a"; "c"]); (make 2024 6 2, ["b"; "c"])])
  /\ dict_getitem
       [(make 2024 6 1, ["a"; "c"]); (make 2024 6 2, ["b"; "c"])]
       (make 2024 6 2)
     = match flat_map
               (fun a =>
                  repeat (email a)
                    (count_occ eq_dec (windows_of a) (make 2024 6 2)))
               (map invitee (partners sample_body))
       with
       | [] => Raise KeyError
       | e :: es => Ok (e :: es)
       end.
Proof.
  apply (aggregate_entries (map invitee (partners sample_body))).
  reflexivity.
Defined.

(** X19.  [organize_event] stops at the first attendee, in the order of
    the list, for which [get_valid_dates] raises, and raises that same
    exception, whatever the attendees after it hold. *)
Theorem organize_event_first_failure (before after : list attendee)
  (a : attendee) (e : exn) :
  Forall (fun b => exists r, get_valid_dates (availableDates b) = Ok r)
    before ->
  get_valid_dates (availableDates a) = Raise e ->
  organize_event (before ++ a :: after) = Raise e.
Proof.
  intros F G. unfold organize_event.
  now rewrite (aggregate_propagates before after a e F G).
Qed.

Lemma organize_event_first_failure_witness :
  organize_event
    ([early "a"]
     ++ mk_attendee "b" ["9999-12-31"; "9999-12-31"]
     :: [mk_attendee "c" ["2024-13-40"]])
  = Raise OverflowError.
Proof.
  apply (organize_event_first_failure
           [early "a"] [mk_attendee "c" ["2024-13-40"]]
           (mk_attendee "b" ["9999-12-31"; "9999-12-31"]) OverflowError).
  - repeat constructor; eexists; reflexivity.
  - reflexivity.
Defined.

(** X20.  [get_valid_dates] removes no repeated date: a date whose next
    day is among the input dates is returned as many times as it occurs in
    the input, any other date not at all; so an input without repeated
    dates gives an output without repeated dates. *)
Theorem get_valid_dates_multiplicity (available_dates : list string)
  (dates r : list datetime) :
  map_raise strptime available_dates = Ok dates ->
  get_valid_dates available_dates = Ok r ->
  (forall d,
     count_occ eq_dec r d
     = if has_next dates d then count_occ eq_dec dates d else 0%nat)
  /\ (NoDup dates -> NoDup r).
Proof.
  intros P H.
  assert (C : forall d,
             count_occ eq_dec r d
             = if has_next dates d then count_occ eq_dec dates d else 0%nat).
  { intros d. rewrite (get_valid_dates_filter _ _ _ P H), count_occ_filter.
    destruct (has_next dates d); [|reflexivity].
    symmetry.
    apply (proj1 (Permutation_count_occ eq_dec _ _) (sort_perm dates)). }
  split; [exact C|].
  intros N. apply (NoDup_count_occ eq_dec). intros d. rewrite C.
  destruct (has_next dates d); [|lia].
  now apply (NoDup_count_occ eq_dec).
Qed.

Lemma get_valid_dates_multiplicity_witness :
  (forall d,
     count_occ eq_dec [may_01; may_01] d
     = if has_next [may_01; may_01; make 2024 5 2] d
       then count_occ eq_dec [may_01; may_01; make 2024 5 2] d
       else 0%nat)
  /\ (NoDup [may_01; may_01; make 2024 5 2] -> NoDup [may_01; may_01]).
Proof.
  apply (get_valid_dates_multiplicity
           ["2024-05-01"; "2024-05-01"; "2024-05-02"]);
    reflexivity.
Defined.
